(** * crc_benchmark: a shallow embedding of [crc_benchmark.py]

    The development follows the layout of the script: the pieces of the
    Python runtime the script relies on (exceptions, [range], slicing,
    float arithmetic), the checksum functions of the libraries it
    imports, the registry [checksums], the chunked executor
    ([chunker], [get_checksum], [checksum_data]), the statistics
    ([mean_and_stddev]), the pools, the driver ([do_benchmarking]) and
    the entry point ([main]).  The properties come after the
    definitions; the sample platforms stand behind the facts on the
    sign of a float product, which they need. *)

From Stdlib Require Import String Strings.Byte.
From Stdlib Require Import ZArith List Bool Lia Floats Uint63.
Import ListNotations.

Local Open Scope string_scope.
Local Open Scope list_scope.
Local Open Scope Z_scope.

(* ================================================================= *)
(** ** Python runtime *)

(** The exceptions that the statements of the script can raise. *)
Inductive exn : Type :=
| KeyError (key : string)
| ValueError (msg : string)
| TypeError
| IndexError
| ZeroDivisionError
| OverflowError
| IOError (path : string)
| SystemExit (code : Z)
  (** [raise Exception("Different checksum results obtained for %s: %r"
      % (variant, crcs))] *)
| Exception (variant : string) (crcs : list Z).

Inductive result (A : Type) : Type :=
| Ok (a : A)
| Raise (e : exn).
Arguments Ok {A} a.
Arguments Raise {A} e.

Definition rbind {A B} (r : result A) (k : A -> result B) : result B :=
  match r with
  | Ok a => k a
  | Raise e => Raise e
  end.

Declare Scope res_scope.
Delimit Scope res_scope with res.
Notation "x <- c ;; k" := (rbind c (fun x => k))
  (at level 61, c at next level, right associativity) : res_scope.

(** [[f(x) for x in xs]] when [f] can raise: left to right, the first
    exception wins. *)
Fixpoint rmap {A B} (f : A -> result B) (xs : list A) : result (list B) :=
  match xs with
  | [] => Ok []
  | x :: xs' =>
      (y <- f x ;; ys <- rmap f xs' ;; Ok (y :: ys))%res
  end.

Abbreviation bytes := (list byte) (only parsing).

Definition byte_val (b : byte) : Z := Z.of_N (Byte.to_N b).

Definition len {A} (l : list A) : Z := Z.of_nat (length l).

(** [range(start, stop, step)]; the number of elements is computed as
    CPython does. *)
Definition range_len (start stop step : Z) : Z :=
  if 0 <? step then
    if start <? stop then 1 + (stop - 1 - start) / step else 0
  else
    if stop <? start then 1 + (start - 1 - stop) / (- step) else 0.

Definition py_range (start stop step : Z) : result (list Z) :=
  if step =? 0 then Raise (ValueError "range() arg 3 must not be zero")
  else Ok (map (fun i => start + Z.of_nat i * step)
               (seq 0 (Z.to_nat (range_len start stop step)))).

(** [seq[lo:hi]]: a negative bound counts from the end, and both bounds
    are clamped to the sequence. *)
Definition slice_bound (n i : Z) : Z :=
  if i <? 0 then Z.max (i + n) 0 else Z.min i n.

Definition py_slice {A} (l : list A) (lo hi : Z) : list A :=
  let lo' := slice_bound (len l) lo in
  let hi' := slice_bound (len l) hi in
  firstn (Z.to_nat (hi' - lo')) (skipn (Z.to_nat lo') l).

(** [d[key]] on a dict kept in insertion order. *)
Fixpoint py_getitem {V} (d : list (string * V)) (key : string) : result V :=
  match d with
  | [] => Raise (KeyError key)
  | (k, v) :: d' => if String.eqb k key then Ok v else py_getitem d' key
  end.

Definition keys {V} (d : list (string * V)) : list string := map fst d.

(** [itertools.product(xs, ys)] *)
Definition product {A B} (xs : list A) (ys : list B) : list (A * B) :=
  flat_map (fun x => map (fun y => (x, y)) ys) xs.

(* ----------------------------------------------------------------- *)
(** *** Floats

    Python floats are IEEE 754 binary64 numbers, as are the primitive
    floats used here. *)

(** [float(n)] for the integers that occur: the sizes and counts, all
    below [2^63]. *)
Definition float_of_int (n : Z) : float := PrimFloat.of_uint63 (Uint63.of_Z n).

(** [a / b] on floats *)
Definition py_truediv (a b : float) : result float :=
  if PrimFloat.eqb b 0%float then Raise ZeroDivisionError
  else Ok (PrimFloat.div a b).

(** [a / n] for a float [a] and an int [n]: the int is converted, and
    the quotient is refused exactly when [n] is [0]. *)
Definition py_truediv_int (a : float) (n : Z) : result float :=
  if n =? 0 then Raise ZeroDivisionError
  else Ok (PrimFloat.div a (float_of_int n)).

(** [math.sqrt] *)
Definition math_sqrt (v : float) : result float :=
  if PrimFloat.ltb v 0%float then Raise (ValueError "math domain error")
  else Ok (PrimFloat.sqrt v).

(** [sum(xs)]: starts from [0] and adds from the left, as the
    interpreters before 3.12 do. *)
Definition py_sum (xs : list float) : float :=
  fold_left PrimFloat.add xs 0%float.

(* ================================================================= *)
(** ** The imported checksum functions

    [binascii.crc32], [zlib.crc32], [zlib.adler32] and [crc32c.crc32]
    are library functions of two arguments, the bytes and the running
    checksum; they are given here by the bitwise definition of the
    reflected CRC (polynomials [0xEDB88320] and [0x82F63B78]) and by the
    definition of Adler-32 (two sums modulo 65521). *)

Definition mask32 : Z := 0xffffffff.

Definition crc_shift (poly c : Z) : Z :=
  if Z.testbit c 0 then Z.lxor (Z.shiftr c 1) poly else Z.shiftr c 1.

Definition crc_byte (poly c : Z) (b : byte) : Z :=
  Nat.iter 8 (crc_shift poly) (Z.lxor c (byte_val b)).

(** A reflected 32-bit CRC with initial value and final xor
    [0xffffffff], continued from the running value [value]. *)
Definition crc_update (poly : Z) (data : bytes) (value : Z) : Z :=
  Z.lxor (fold_left (crc_byte poly) data
            (Z.lxor (Z.land value mask32) mask32)) mask32.

Definition binascii_crc32 : bytes -> Z -> Z := crc_update 0xEDB88320.
Definition zlib_crc32 : bytes -> Z -> Z := crc_update 0xEDB88320.
Definition crc32c_crc32 : bytes -> Z -> Z := crc_update 0x82F63B78.

Definition adler_base : Z := 65521.

Definition adler_byte (s : Z * Z) (b : byte) : Z * Z :=
  let a := (fst s + byte_val b) mod adler_base in
  (a, (snd s + a) mod adler_base).

Definition zlib_adler32 (data : bytes) (value : Z) : Z :=
  let s := fold_left adler_byte data
             (Z.land value 0xffff, Z.land (Z.shiftr value 16) 0xffff) in
  Z.lor (Z.shiftl (snd s) 16) (fst s).

(** What the interpreter found on its platform: whether [import crc32c]
    succeeded; when [import xxhash] succeeded, the digest of an [xxh32]
    object as a function of the bytes it has consumed; and the function
    [x |-> pow(x, 2.0)] of the C library, which the interpreter calls
    for [x ** 2] on floats.  IEEE 754 does not fix the last bit of
    [pow], and C libraries differ in it, so that the function is left
    open; what is known of it is that a square is never below zero. *)
Record runtime : Type := {
  crc32c : bool;
  xxhash : option (bytes -> Z);
  libm_pow2 : float -> float;
  libm_pow2_sign : forall x, PrimFloat.ltb (libm_pow2 x) 0%float = false
}.

(* ================================================================= *)
(** ** The registry *)

(** [checksum_info = namedtuple('checksum_info', 'name init method final')].
    [State] is the type of the running value that [init] creates and
    [method] threads. *)
Record checksum_info : Type := {
  State : Type;
  name : string;
  init : unit -> State;
  method : bytes -> State -> State;
  final : State -> Z
}.

(** An [xxh32] object is represented by the bytes it has consumed. *)
Definition _update_xxhash (x : bytes) (crc : bytes) : bytes := crc ++ x.

Definition checksums (rt : runtime) : list (string * checksum_info) :=
  [ ("crc32", {| name := "binascii's crc32 implementation";
                 init := fun _ => 0; method := binascii_crc32;
                 final := fun x => Z.land x 0xffffffff |});
    ("crc32z", {| name := "zlib's crc32 implementation";
                  init := fun _ => 0; method := zlib_crc32;
                  final := fun x => Z.land x 0xffffffff |});
    ("adler32", {| name := "zlib's adler32 implementation";
                   init := fun _ => 0; method := zlib_adler32;
                   final := fun x => Z.land x 0xffffffff |}) ]
  ++ (if crc32c rt
      then [ ("crc32c", {| name := "crc32c's crc32c implementation";
                           init := fun _ => 0; method := crc32c_crc32;
                           final := fun x => Z.land x 0xffffffff |}) ]
      else [])
  ++ (match xxhash rt with
      | Some intdigest =>
          [ ("xxhash32", {| name := "xxhash's xxhash32 implementation";
                            init := fun _ => ([] : bytes);
                            method := _update_xxhash;
                            final := fun x => Z.land (intdigest x) 0xffffffff |}) ]
      | None => []
      end).

(* ================================================================= *)
(** ** The chunked executor *)

Definition chunker {A} (seq : list A) (size : Z) : result (list (list A)) :=
  (positions <- py_range 0 (len seq) size ;;
   Ok (map (fun pos => py_slice seq pos (pos + size)) positions))%res.

(** The running value after the [for block in ...] loop. *)
Definition update_blocks (ci : checksum_info) (blocks : list bytes)
    (crc : State ci) : State ci :=
  fold_left (fun crc block => method ci block crc) blocks crc.

Definition get_checksum (rt : runtime) (bufsize : Z) (data : bytes)
    (variant : string) : result Z :=
  (crc_info <- py_getitem (checksums rt) variant ;;
   let crc := init crc_info tt in
   positions <- py_range 0 (len data) bufsize ;;
   let blocks := map (fun pos => py_slice data pos (pos + bufsize)) positions in
   let crc := update_blocks crc_info blocks crc in
   Ok (final crc_info crc))%res.

(* ================================================================= *)
(** ** Effects: the clock, the worker global, the console, the files *)

(** The argument tuple of the row that [do_benchmarking] prints. *)
Record row : Type := {
  row_variant : string;
  row_crc_hex : Z;
  row_crc : Z;
  row_bufsize : Z;
  row_mean_speed : float;
  row_stddev_speed : float;
  row_mean_time : float;
  row_stddev_time : float;
  row_mean_setup : float;
  row_stddev_setup : float
}.

(** One event per [print] call; the layout of the text is left out. *)
Inductive out_event : Type :=
| OutChecking (path : string) (nbytes : Z)
| OutPython
| OutSummary (size_mb : float) (number_tasks : Z) (mechanism : string)
| OutMethods
| OutMethod (variant : string) (description : string)
| OutShmem (size_mb : float) (created : float) (initialized : float)
| OutBlank
| OutTableHead
| OutTableRule
| OutRow (args : row).

(** [clock] gives the successive readings of [time.time()], [ticks]
    counts the readings taken so far; [_shmem_val] is the module
    global of that name as the workers see it. *)
Record world : Type := {
  clock : nat -> float;
  ticks : nat;
  _shmem_val : option bytes;
  stdout : list out_event;
  files : string -> option bytes
}.

Definition M (A : Type) : Type := world -> result A * world.

Definition ret {A} (a : A) : M A := fun w => (Ok a, w).

Definition raise {A} (e : exn) : M A := fun w => (Raise e, w).

Definition bind {A B} (c : M A) (k : A -> M B) : M B :=
  fun w =>
    match c w with
    | (Ok a, w') => k a w'
    | (Raise e, w') => (Raise e, w')
    end.

Definition lift {A} (r : result A) : M A := fun w => (r, w).

Declare Scope m_scope.
Delimit Scope m_scope with M.
Notation "x <- c ;; k" := (bind c (fun x => k))
  (at level 61, c at next level, right associativity) : m_scope.
Notation "c ;;; k" := (bind c (fun _ => k))
  (at level 61, right associativity) : m_scope.

Definition time_time : M float :=
  fun w =>
    (Ok (clock w (ticks w)),
     {| clock := clock w; ticks := S (ticks w); _shmem_val := _shmem_val w;
        stdout := stdout w; files := files w |}).

Definition print (e : out_event) : M unit :=
  fun w =>
    (Ok tt,
     {| clock := clock w; ticks := ticks w; _shmem_val := _shmem_val w;
        stdout := stdout w ++ [e]; files := files w |}).

Definition set_shmem_val (val : bytes) : M unit :=
  fun w =>
    (Ok tt,
     {| clock := clock w; ticks := ticks w; _shmem_val := Some val;
        stdout := stdout w; files := files w |}).

Definition get_shmem_val : M (option bytes) := fun w => (Ok (_shmem_val w), w).

Definition read_file (path : string) : M bytes :=
  fun w =>
    match files w path with
    | Some content => (Ok content, w)
    | None => (Raise (IOError path), w)
    end.

(** [for x in xs: body(x)] *)
Fixpoint for_each {A} (xs : list A) (body : A -> M unit) : M unit :=
  match xs with
  | [] => ret tt
  | x :: xs' => (body x ;;; for_each xs' body)%M
  end.

(** [[f(i) for i in iterable]] *)
Fixpoint map_M {A B} (f : A -> M B) (xs : list A) : M (list B) :=
  match xs with
  | [] => ret []
  | x :: xs' => (y <- f x ;; ys <- map_M f xs' ;; ret (y :: ys))%M
  end.

(* ----------------------------------------------------------------- *)
(** *** [checksum_data] and the task functions *)

(** [(crc, start, elapsed)] *)
Definition task_result : Type := Z * float * float.

Definition checksum_data (rt : runtime) (data : bytes) (bufsize : Z)
    (variant : string) : M task_result :=
  (if bufsize =? 0 then
     start <- time_time ;;
     crc_info <- lift (py_getitem (checksums rt) variant) ;;
     let crc := final crc_info (method crc_info data (init crc_info tt)) in
     now <- time_time ;;
     ret (crc, start, PrimFloat.sub now start)
   else
     start <- time_time ;;
     crc <- lift (get_checksum rt bufsize data variant) ;;
     now <- time_time ;;
     ret (crc, start, PrimFloat.sub now start))%M.

(** When the global was never set the call receives [None]: the clock
    is read, the registry is looked up, and the first use of the data
    raises. *)
Definition _checksum_data_shmem_proc (rt : runtime) (bufsize : Z)
    (variant : string) (_ : Z) : M task_result :=
  (shm <- get_shmem_val ;;
   match shm with
   | Some data => checksum_data rt data bufsize variant
   | None =>
       _ <- time_time ;;
       _ <- lift (py_getitem (checksums rt) variant) ;;
       raise TypeError
   end)%M.

Definition _checksum_data_proc (rt : runtime) (data : bytes) (bufsize : Z)
    (variant : string) (_ : Z) : M task_result :=
  checksum_data rt data bufsize variant.

(* ----------------------------------------------------------------- *)
(** *** Statistics *)

(** [v ** 2] on a float, by the cases of the interpreter's [float_pow]
    for the exponent [2.0]: a NaN is returned as it is, an infinity
    gives [inf], a zero gives [0.0]; the sign of a negative [v] is
    dropped, one gives [1.0], and what is left goes to the [pow] of
    the C library, whose infinite result for this finite operand is
    reported as [OverflowError]. *)
Definition py_pow2 (rt : runtime) (v : float) : result float :=
  if PrimFloat.is_nan v then Ok v
  else if PrimFloat.is_infinity v then Ok (PrimFloat.abs v)
  else if PrimFloat.eqb v 0%float then Ok 0%float
  else
    let iv := if PrimFloat.ltb v 0%float then PrimFloat.opp v else v in
    if PrimFloat.eqb iv 1%float then Ok 1%float
    else
      let ix := libm_pow2 rt iv in
      if PrimFloat.is_infinity ix then Raise OverflowError else Ok ix.

Definition mean_and_stddev (rt : runtime) (x : list float)
    : result (float * float) :=
  (mean <- py_truediv_int (py_sum x) (len x) ;;
   squares <- rmap (fun _x => py_pow2 rt (PrimFloat.sub _x mean)) x ;;
   variance <- py_truediv_int (py_sum squares) (len x) ;;
   stddev <- math_sqrt variance ;;
   Ok (mean, stddev))%res.

(* ----------------------------------------------------------------- *)
(** *** Options and pools *)

Record options : Type := {
  number_tasks : Z;
  file : option string;
  megabytes : Z;
  threads : bool;
  processes : bool;
  processes_copy : bool
}.

(** What the driver uses of a pool: its [map] method. *)
Record pool : Type := {
  pool_map : (Z -> M task_result) -> list Z -> M (list task_result)
}.

(** [class _serial_pool], instantiated. *)
Definition _serial_pool : pool := {| pool_map := map_M |}.

(** [multiprocessing.pool.ThreadPool(n)] and [multiprocessing.Pool(n)]:
    both refuse a worker count below one; their [map] returns the
    results in the order of the iterable, and the tasks are run one
    after the other here. *)
Definition ThreadPool (workers : Z) : M pool :=
  if workers <? 1
  then raise (ValueError "Number of processes must be at least 1")
  else ret {| pool_map := map_M |}.

Definition Pool (workers : Z) : M pool :=
  if workers <? 1
  then raise (ValueError "Number of processes must be at least 1")
  else ret {| pool_map := map_M |}.

(** Returns the pool and the content of [data] on return: with
    [opts.processes] the buffer is emptied by [del data[:]]. *)
Definition _get_pool (opts : options) (data : bytes) (size_mb : float)
    : M (pool * bytes) :=
  (if threads opts then
     p <- ThreadPool (number_tasks opts) ;;
     ret (p, data)
   else if processes opts then
     t0 <- time_time ;;
     let shmem_val := data in
     t1 <- time_time ;;
     now <- time_time ;;
     print (OutShmem size_mb (PrimFloat.sub t1 t0) (PrimFloat.sub now t1)) ;;;
     p <- Pool (number_tasks opts) ;;
     set_shmem_val shmem_val ;;;
     ret (p, [])
   else if processes_copy opts then
     p <- Pool (number_tasks opts) ;;
     ret (p, data)
   else ret (_serial_pool, data))%M.

Definition _get_checksum_function (rt : runtime) (opts : options)
    (data : bytes) (bufsize : Z) (variant : string) : Z -> M task_result :=
  if processes opts then _checksum_data_shmem_proc rt bufsize variant
  else if processes_copy opts then _checksum_data_proc rt data bufsize variant
  else fun _ => checksum_data rt data bufsize variant.

(* ----------------------------------------------------------------- *)
(** *** The driver *)

(** [list(range(9, 21)) + [0]] *)
Definition bufsize_log2s : list Z :=
  match py_range 9 21 1 with
  | Ok l => l ++ [0]
  | Raise _ => [0]
  end.

Definition bufsize_of (bufsize_log2 : Z) : Z :=
  if 0 <? bufsize_log2 then 2 ^ bufsize_log2 else 0.

(** The sequence the [for] statement of [do_benchmarking] runs over. *)
Definition sweep (rt : runtime) : list (string * Z) :=
  product (keys (checksums rt)) bufsize_log2s.

Definition all_equal (crcs : list Z) : bool :=
  forallb (fun x => x =? nth 0 crcs 0) crcs.

Definition py_first (crcs : list Z) : result Z :=
  match crcs with
  | [] => Raise IndexError
  | c :: _ => Ok c
  end.

(** The statements of the loop body after [pool.map] has returned. *)
Definition summarize (rt : runtime) (variant : string) (bufsize : Z)
    (size_mb t0 : float) (res : list task_result) : result row :=
  let crcs := map (fun x => fst (fst x)) res in
  let setup_times := map (fun x => PrimFloat.sub (snd (fst x)) t0) res in
  let times := map (fun x => snd x) res in
  (speeds <- rmap (fun t => py_truediv size_mb t) times ;;
   if negb (all_equal crcs) then Raise (Exception variant crcs)
   else
     crc <- py_first crcs ;;
     time_stats <- mean_and_stddev rt times ;;
     setup_stats <- mean_and_stddev rt setup_times ;;
     speed_stats <- mean_and_stddev rt speeds ;;
     Ok {| row_variant := variant;
           row_crc_hex := Z.land crc 0xffffffff;
           row_crc := crc;
           row_bufsize := bufsize;
           row_mean_speed := fst speed_stats;
           row_stddev_speed := snd speed_stats;
           row_mean_time := fst time_stats;
           row_stddev_time := snd time_stats;
           row_mean_setup := fst setup_stats;
           row_stddev_setup := snd setup_stats |})%res.

(** The body of the [for] statement. *)
Definition benchmark_one (rt : runtime) (opts : options) (p : pool)
    (data : bytes) (size_mb : float) (combination : string * Z) : M unit :=
  let (variant, bufsize_log2) := combination in
  let bufsize := bufsize_of bufsize_log2 in
  let _checksum_data := _get_checksum_function rt opts data bufsize variant in
  (t0 <- time_time ;;
   indices <- lift (py_range 0 (number_tasks opts) 1) ;;
   res <- pool_map p _checksum_data indices ;;
   args <- lift (summarize rt variant bufsize size_mb t0 res) ;;
   print (OutRow args))%M.

Definition mechanism_of (opts : options) : string :=
  if threads opts then "thread(s)"
  else if processes opts || processes_copy opts then "process(es)"
  else "serial evaluation(s)".

Definition do_benchmarking (rt : runtime) (opts : options) (data : bytes)
    : M unit :=
  let size_mb :=
    PrimFloat.div (PrimFloat.div (float_of_int (len data)) 1024%float)
      (float_of_int 1024) in
  let mechanism := mechanism_of opts in
  (print OutPython ;;;
   print (OutSummary size_mb (number_tasks opts) mechanism) ;;;
   print OutMethods ;;;
   for_each (checksums rt)
     (fun item => print (OutMethod (fst item) (name (snd item)))) ;;;
   pd <- _get_pool opts data size_mb ;;
   let (p, data) := pd in
   print OutBlank ;;;
   print OutTableHead ;;;
   print OutTableRule ;;;
   for_each (sweep rt) (benchmark_one rt opts p data size_mb))%M.

(* ----------------------------------------------------------------- *)
(** *** The entry point *)

(** The command line after the parser has split it and applied
    [type=int]: one constructor per declared option.  The parser
    rejects everything else with exit status 2. *)
Inductive arg : Type :=
| Arg_number_tasks (value : Z)
| Arg_file (path : string)
| Arg_megabytes (value : Z)
| Arg_threads
| Arg_processes
| Arg_processes_copy.

Definition default_options : options :=
  {| number_tasks := 1; file := None; megabytes := 128;
     threads := false; processes := false; processes_copy := false |}.

(** The options gathered so far, and which members of the group
    [data] count as present.  The parser counts an option as present
    when its value is not the very object of its default: a file name
    never is [None], but the int [128] is the one object the
    interpreter keeps for that number, so that [-m 128] never counts. *)
Record parser_state : Type := {
  ps_opts : options;
  ps_seen_file : bool;
  ps_seen_megabytes : bool
}.

Definition parse_arg (st : parser_state) (a : arg) : result parser_state :=
  let o := ps_opts st in
  match a with
  | Arg_number_tasks v =>
      Ok {| ps_opts := {| number_tasks := v; file := file o;
                          megabytes := megabytes o; threads := threads o;
                          processes := processes o;
                          processes_copy := processes_copy o |};
            ps_seen_file := ps_seen_file st;
            ps_seen_megabytes := ps_seen_megabytes st |}
  | Arg_file path =>
      if ps_seen_megabytes st then Raise (SystemExit 2)
      else
        Ok {| ps_opts := {| number_tasks := number_tasks o; file := Some path;
                            megabytes := megabytes o; threads := threads o;
                            processes := processes o;
                            processes_copy := processes_copy o |};
              ps_seen_file := true;
              ps_seen_megabytes := ps_seen_megabytes st |}
  | Arg_megabytes v =>
      if v =? megabytes default_options then
        Ok {| ps_opts := {| number_tasks := number_tasks o; file := file o;
                            megabytes := v; threads := threads o;
                            processes := processes o;
                            processes_copy := processes_copy o |};
              ps_seen_file := ps_seen_file st;
              ps_seen_megabytes := ps_seen_megabytes st |}
      else if ps_seen_file st then Raise (SystemExit 2)
      else
        Ok {| ps_opts := {| number_tasks := number_tasks o; file := file o;
                            megabytes := v; threads := threads o;
                            processes := processes o;
                            processes_copy := processes_copy o |};
              ps_seen_file := ps_seen_file st;
              ps_seen_megabytes := true |}
  | Arg_threads =>
      if processes o || processes_copy o then Raise (SystemExit 2)
      else
        Ok {| ps_opts := {| number_tasks := number_tasks o; file := file o;
                            megabytes := megabytes o; threads := true;
                            processes := processes o;
                            processes_copy := processes_copy o |};
              ps_seen_file := ps_seen_file st;
              ps_seen_megabytes := ps_seen_megabytes st |}
  | Arg_processes =>
      if threads o || processes_copy o then Raise (SystemExit 2)
      else
        Ok {| ps_opts := {| number_tasks := number_tasks o; file := file o;
                            megabytes := megabytes o; threads := threads o;
                            processes := true;
                            processes_copy := processes_copy o |};
              ps_seen_file := ps_seen_file st;
              ps_seen_megabytes := ps_seen_megabytes st |}
  | Arg_processes_copy =>
      if threads o || processes o then Raise (SystemExit 2)
      else
        Ok {| ps_opts := {| number_tasks := number_tasks o; file := file o;
                            megabytes := megabytes o; threads := threads o;
                            processes := processes o;
                            processes_copy := true |};
              ps_seen_file := ps_seen_file st;
              ps_seen_megabytes := ps_seen_megabytes st |}
  end.

Fixpoint parse_from (st : parser_state) (argv : list arg) : result options :=
  match argv with
  | [] => Ok (ps_opts st)
  | a :: argv' => (st' <- parse_arg st a ;; parse_from st' argv')%res
  end.

Definition parse_args (argv : list arg) : result options :=
  parse_from {| ps_opts := default_options; ps_seen_file := false;
                ps_seen_megabytes := false |} argv.

Definition fake_data (megabytes : Z) : bytes :=
  repeat " "%byte (Z.to_nat (1024 * 1024 * megabytes)).

(** [bytearray(data)] under [opts.processes] changes the type of the
    buffer, not its content. *)
Definition main (rt : runtime) (argv : list arg) : M unit :=
  (opts <- lift (parse_args argv) ;;
   data <- match file opts with
           | Some path =>
               if String.eqb path "" then ret (fake_data (megabytes opts))
               else
                 content <- read_file path ;;
                 print (OutChecking path (len content)) ;;;
                 ret content
           | None => ret (fake_data (megabytes opts))
           end ;;
   do_benchmarking rt opts data)%M.

(* ================================================================= *)
(** ** Specification-side definitions *)

(** The [k] consecutive slices of [c] elements of [l], by position. *)
Definition blocks_at {A} (l : list A) (c k : nat) : list (list A) :=
  map (fun i => firstn c (skipn (i * c)%nat l)) (seq 0 k).

(** The mean of the samples in float arithmetic: the sum divided by the
    count. *)
Definition float_mean (x : list float) : float :=
  PrimFloat.div (py_sum x) (float_of_int (len x)).

(** The square of [d] in the float arithmetic of the platform: a NaN
    for a NaN, the infinity for an infinity, zero for a zero, one for a
    magnitude of one, and the C library's square of the magnitude of
    [d] for every other [d]. *)
Definition float_square (rt : runtime) (d : float) : float :=
  if PrimFloat.is_nan d then PrimFloat.nan
  else if PrimFloat.is_infinity d then PrimFloat.infinity
  else if PrimFloat.eqb d 0%float then 0%float
  else if PrimFloat.eqb (PrimFloat.abs d) 1%float then 1%float
  else libm_pow2 rt (PrimFloat.abs d).

(** The square of [d] overflows: [d] is a finite number other than
    zero and one in magnitude, and the C library returns an infinity
    for the square of its magnitude. *)
Definition square_overflows (rt : runtime) (d : float) : bool :=
  is_finite d
  && negb (PrimFloat.eqb d 0%float)
  && negb (PrimFloat.eqb (PrimFloat.abs d) 1%float)
  && PrimFloat.is_infinity (libm_pow2 rt (PrimFloat.abs d)).

(** A squared deviation from the mean overflows. *)
Definition stats_overflow (rt : runtime) (x : list float) : bool :=
  existsb (fun v => square_overflows rt (PrimFloat.sub v (float_mean x))) x.

(** The mean and the population standard deviation of the samples in
    float arithmetic: the latter is the square root of the sum of the
    squared deviations from the mean divided by the count. *)
Definition population_stats (rt : runtime) (x : list float) : float * float :=
  let mean := float_mean x in
  let squared_deviation v := float_square rt (PrimFloat.sub v mean) in
  (mean,
   PrimFloat.sqrt
     (PrimFloat.div (py_sum (map squared_deviation x)) (float_of_int (len x)))).

(** The throughputs of a combination, and whether a squared deviation
    overflows in one of its three statistics. *)
Definition speeds_of (size_mb : float) (res : list task_result) : list float :=
  map (fun x => PrimFloat.div size_mb (snd x)) res.

Definition statistics_overflow (rt : runtime) (size_mb t0 : float)
    (res : list task_result) : bool :=
  stats_overflow rt (map (fun x => snd x) res)
  || stats_overflow rt (map (fun x => PrimFloat.sub (snd (fst x)) t0) res)
  || stats_overflow rt (speeds_of size_mb res).

(** [r == (mean, stddev)] on floats. *)
Definition stats_eq (r : float * float) (mean stddev : float) : bool :=
  PrimFloat.eqb (fst r) mean && PrimFloat.eqb (snd r) stddev.

(** Not below zero: a NaN, a zero, or a number with the sign [+]. *)
Definition sf_not_neg (x : spec_float) : bool :=
  match x with
  | S754_nan | S754_zero _ => true
  | S754_infinity s | S754_finite s _ _ => negb s
  end.

(** A NaN or a number, zero included, with the sign [+]. *)
Definition sf_plus (x : spec_float) : bool :=
  match x with
  | S754_nan => true
  | S754_zero s | S754_infinity s | S754_finite s _ _ => negb s
  end.

(** A value that fits 32 bits. *)
Definition in32 (c : Z) : Prop := Z.land c mask32 = c.

(** The contract of [update] in the registry: feeding two pieces one
    after the other is feeding their concatenation. *)
Definition streaming (ci : checksum_info) : Prop :=
  forall (s : State ci) (b1 b2 : bytes),
    method ci (b1 ++ b2) s = method ci b2 (method ci b1 s).

(** Feeding no bytes to a fresh running value leaves it as it is. *)
Definition neutral_on_empty (ci : checksum_info) : Prop :=
  method ci [] (init ci tt) = init ci tt.

(** The world after [n] more readings of the clock. *)
Definition advance (n : nat) (w : world) : world :=
  {| clock := clock w; ticks := (n + ticks w)%nat; _shmem_val := _shmem_val w;
     stdout := stdout w; files := files w |}.

(** The checksum component of the outcome of a task. *)
Definition crc_of (r : result task_result * world) : result Z :=
  match fst r with
  | Ok x => Ok (fst (fst x))
  | Raise e => Raise e
  end.

(** At most one of the three strategy flags is set, as the parser
    guarantees; none set is the serial strategy. *)
Definition exclusive (opts : options) : bool :=
  match threads opts, processes opts, processes_copy opts with
  | true, false, false
  | false, true, false
  | false, false, true
  | false, false, false => true
  | _, _, _ => false
  end.

(** The statements of the loop body of [do_benchmarking] that produce
    the results [res] of one combination from the pool: the task
    function is built and mapped over the task indices. *)
Definition run_combination (rt : runtime) (opts : options) (p : pool)
    (data : bytes) (bufsize : Z) (variant : string) : M (list task_result) :=
  (indices <- lift (py_range 0 (number_tasks opts) 1) ;;
   pool_map p (_get_checksum_function rt opts data bufsize variant) indices)%M.

(** The exception of the consistency check. *)
Definition is_mismatch (e : exn) : bool :=
  match e with
  | Exception _ _ => true
  | _ => false
  end.

(** The algorithm and chunk size of the rows printed so far. *)
Fixpoint rows_of (out : list out_event) : list (string * Z) :=
  match out with
  | [] => []
  | OutRow args :: out' => (row_variant args, row_bufsize args) :: rows_of out'
  | _ :: out' => rows_of out'
  end.

(** A computation whose exceptions all satisfy [P]. *)
Definition raises_only {A} (P : exn -> Prop) (c : M A) : Prop :=
  forall w e w', c w = (Raise e, w') -> P e.

Definition not_KeyError (e : exn) : Prop := forall key, e <> KeyError key.

(** A computation that prints no row. *)
Definition prints_no_row {A} (c : M A) : Prop :=
  forall w r w', c w = (r, w') -> rows_of (stdout w') = rows_of (stdout w).

(** The chunk sizes of the sweep, in the order of the inner loop. *)
Definition chunk_sizes : list Z :=
  [512; 1024; 2048; 4096; 8192; 16384; 32768; 65536; 131072; 262144;
   524288; 1048576; 0].

(** The checksum of the whole buffer under an algorithm. *)
Definition reference_checksum (ci : checksum_info) (data : bytes) : Z :=
  final ci (method ci data (init ci tt)).

(** The results of [n] tasks run one after the other from the world
    [w], each returning the checksum [crc]: task [k] starts at the
    reading [2k] of the clock and stops at the next one. *)
Definition serial_timeline (crc : Z) (w : world) (n : nat) : list task_result :=
  map (fun k =>
         (crc,
          clock w (ticks w + 2 * k)%nat,
          PrimFloat.sub (clock w (ticks w + 2 * k + 1)%nat)
            (clock w (ticks w + 2 * k)%nat)))
      (seq 0 n).

(** The world after the events [new] have been printed. *)
Definition emit (new : list out_event) (w : world) : world :=
  {| clock := clock w; ticks := ticks w; _shmem_val := _shmem_val w;
     stdout := stdout w ++ new; files := files w |}.

(** What [do_benchmarking] prints before it sets up the pool. *)
Definition preamble (rt : runtime) (opts : options) (data : bytes)
    : list out_event :=
  [ OutPython;
    OutSummary
      (PrimFloat.div (PrimFloat.div (float_of_int (len data)) 1024%float)
         (float_of_int 1024))
      (number_tasks opts) (mechanism_of opts);
    OutMethods ]
  ++ map (fun item => OutMethod (fst item) (name (snd item))) (checksums rt).

(** A printed row is right for the buffer [data]: its algorithm is
    registered, its checksum is that of the whole buffer, both checksum
    columns agree, and its chunk size is one of the sweep. *)
Definition row_correct (rt : runtime) (data : bytes) (args : row) : Prop :=
  exists ci,
    py_getitem (checksums rt) (row_variant args) = Ok ci
    /\ row_crc args = reference_checksum ci data
    /\ row_crc_hex args = row_crc args
    /\ In (row_bufsize args) chunk_sizes.

Definition event_correct (rt : runtime) (data : bytes) (e : out_event) : Prop :=
  match e with
  | OutRow args => row_correct rt data args
  | _ => True
  end.

(** A computation that leaves the worker global as it is. *)
Definition keeps_global {A} (c : M A) : Prop :=
  forall w r w', c w = (r, w') -> _shmem_val w' = _shmem_val w.





(* ================================================================= *)
(** ** The sign of a float multiplied by itself *)

Lemma sf_plus_not_neg (x : spec_float) : sf_plus x = true -> sf_not_neg x = true.
Proof. now destruct x. Qed.

Lemma round_aux_sign (s : bool) (m e : Z) (l : location) :
  match binary_round_aux prec emax s m e l with
  | S754_nan => True
  | S754_zero s' | S754_infinity s' | S754_finite s' _ _ => s' = s
  end.
Proof.
  unfold binary_round_aux.
  destruct (shr_fexp prec emax m e l) as [mrs' e'].
  destruct (shr_fexp prec emax _ e' loc_Exact) as [mrs'' e''].
  destruct (shr_m mrs''); [reflexivity| |exact I].
  destruct (Z.leb e'' _); reflexivity.
Qed.

Lemma round_aux_plus (m e : Z) (l : location) :
  sf_plus (binary_round_aux prec emax false m e l) = true.
Proof.
  pose proof (round_aux_sign false m e l) as H.
  destruct (binary_round_aux prec emax false m e l); subst; reflexivity.
Qed.

Lemma round_plus (m : positive) (e : Z) :
  sf_plus (binary_round prec emax false m e) = true.
Proof.
  unfold binary_round. destruct (shl_align _ _ _). apply round_aux_plus.
Qed.

Lemma sf_mul_square (x : spec_float) : sf_not_neg (SF64mul x x) = true.
Proof.
  destruct x as [s|s| |s m e]; try reflexivity;
    try (destruct s; reflexivity).
  destruct s; cbv beta iota delta [SF64mul SFmul xorb];
    apply sf_plus_not_neg, round_aux_plus.
Qed.

Lemma Prim2SF_zero : Prim2SF 0 = S754_zero false.
Proof. reflexivity. Qed.

Lemma not_neg_ltb (v : float) :
  sf_not_neg (Prim2SF v) = true -> PrimFloat.ltb v 0 = false.
Proof.
  rewrite FloatAxioms.ltb_spec, Prim2SF_zero.
  destruct (Prim2SF v) as [s|s| |s m e]; try destruct s;
    try discriminate; reflexivity.
Qed.

Lemma ltb_not_neg (v : float) :
  PrimFloat.ltb v 0 = false -> sf_not_neg (Prim2SF v) = true.
Proof.
  rewrite FloatAxioms.ltb_spec, Prim2SF_zero.
  destruct (Prim2SF v) as [s|s| |s m e]; try destruct s;
    try discriminate; reflexivity.
Qed.

Lemma mul_square_sign (x : float) :
  PrimFloat.ltb (PrimFloat.mul x x) 0 = false.
Proof.
  apply not_neg_ltb. rewrite FloatAxioms.mul_spec. apply sf_mul_square.
Qed.

Lemma one_low_sign (x : float) :
  PrimFloat.ltb
    (if PrimFloat.eqb x 0x1.8000000000001p-2%float
     then 0x1.2000000000001p-3%float else PrimFloat.mul x x) 0 = false.
Proof.
  destruct (PrimFloat.eqb x _); [reflexivity|apply mul_square_sign].
Qed.

(* ================================================================= *)
(** ** Sample inputs *)

(** A platform with [crc32c], without [xxhash], and with a C library
    whose [pow] rounds a square correctly. *)
Definition no_xx : runtime :=
  {| crc32c := true; xxhash := None;
     libm_pow2 := fun x => PrimFloat.mul x x;
     libm_pow2_sign := mul_square_sign |}.

(** The same with a C library whose [pow] is one unit in the last place
    below the correctly rounded square at one argument, as the [pow] of
    a C library can be. *)
Definition one_low : runtime :=
  {| crc32c := true; xxhash := None;
     libm_pow2 := fun x =>
       if PrimFloat.eqb x 0x1.8000000000001p-2%float
       then 0x1.2000000000001p-3%float else PrimFloat.mul x x;
     libm_pow2_sign := one_low_sign |}.

Definition check_bytes : bytes := list_byte_of_string "123456789".

(** A clock that advances by one second per reading. *)
Definition w0 : world :=
  {| clock := fun n => float_of_int (Z.of_nat n); ticks := 0;
     _shmem_val := None; stdout := []; files := fun _ => None |}.


(** A clock that stands still. *)
Definition w_still : world :=
  {| clock := fun _ => 1%float; ticks := 0;
     _shmem_val := None; stdout := []; files := fun _ => None |}.

(** Two serial tasks. *)
Definition two_tasks : options :=
  {| number_tasks := 2; file := None; megabytes := 0;
     threads := false; processes := false; processes_copy := false |}.

(** Three tasks on worker processes that share the buffer. *)
Definition three_processes : options :=
  {| number_tasks := 3; file := None; megabytes := 0;
     threads := false; processes := true; processes_copy := false |}.

(** A pool whose two workers return different checksums. *)
Definition disagreeing_pool : pool :=
  {| pool_map := fun _ _ =>
       ret [(1, 0%float, 1%float); (2, 0%float, 1%float)] |}.

(** The double nearest to one tenth. *)
Definition tenth : float := 0x1.999999999999ap-4%float.

(* ================================================================= *)
(** ** Known values of the imported checksum functions *)

Example crc32_check : binascii_crc32 check_bytes 0 = 0xCBF43926.
Proof. vm_compute. reflexivity. Qed.

Example crc32c_check : crc32c_crc32 check_bytes 0 = 0xE3069283.
Proof. vm_compute. reflexivity. Qed.

Example adler32_check :
  zlib_adler32 (list_byte_of_string "Wikipedia") 1 = 0x11E60398.
Proof. vm_compute. reflexivity. Qed.

Example get_checksum_check :
  get_checksum no_xx 4 check_bytes "crc32" = Ok 0xCBF43926.
Proof. vm_compute. reflexivity. Qed.

(* ================================================================= *)
(** ** Chunking *)

Section Chunking.
Context {A : Type}.
Implicit Types (l : list A) (k c i : nat).

Lemma firstn_plus l a b :
  firstn (a + b) l = firstn a l ++ firstn b (skipn a l).
Proof.
  revert l; induction a as [|a IH]; intros [|x l]; simpl; try reflexivity.
  - now rewrite firstn_nil.
  - now rewrite IH.
Qed.

Lemma concat_blocks_at l c k :
  concat (blocks_at l c k) = firstn (k * c) l.
Proof.
  unfold blocks_at.
  induction k as [|k IH]; [reflexivity|].
  rewrite seq_S, map_app, concat_app, IH; simpl.
  rewrite app_nil_r, (Nat.add_comm c), firstn_plus. reflexivity.
Qed.

Lemma length_blocks_at l c k : length (blocks_at l c k) = k.
Proof. unfold blocks_at. now rewrite length_map, length_seq. Qed.

Lemma nth_blocks_at l c k i :
  (i < k)%nat ->
  nth i (blocks_at l c k) [] = firstn c (skipn (i * c) l).
Proof.
  intros Hi. unfold blocks_at.
  rewrite (nth_indep _ [] (firstn c (skipn (0 * c) l)))
    by now rewrite length_map, length_seq.
  rewrite (map_nth (fun i => firstn c (skipn (i * c) l))).
  now rewrite seq_nth.
Qed.

Lemma py_slice_block l (pos size : Z) :
  0 <= pos -> 0 <= size ->
  py_slice l pos (pos + size)
  = firstn (Z.to_nat size) (skipn (Z.to_nat pos) l).
Proof.
  intros Hpos Hsize. unfold py_slice, slice_bound, len.
  destruct (Z.ltb_spec pos 0); [lia|].
  destruct (Z.ltb_spec (pos + size) 0); [lia|].
  destruct (Z_le_gt_dec pos (Z.of_nat (length l))) as [Hin|Hout].
  - rewrite (Z.min_l pos) by lia.
    destruct (Z_le_gt_dec (pos + size) (Z.of_nat (length l))).
    + rewrite Z.min_l by lia. f_equal. lia.
    + rewrite Z.min_r by lia.
      rewrite !firstn_all2; try reflexivity; rewrite length_skipn; lia.
  - rewrite !Z.min_r by lia.
    rewrite !skipn_all2 by lia. now rewrite !firstn_nil.
Qed.
End Chunking.

Lemma range_len_bounds (n C : Z) :
  0 <= n -> 0 < C ->
  0 <= range_len 0 n C /\ n <= range_len 0 n C * C < n + C.
Proof.
  intros Hn HC. unfold range_len.
  destruct (Z.ltb_spec 0 C); [|lia].
  destruct (Z.ltb_spec 0 n); [|lia].
  replace (n - 1 - 0) with (n - 1) by lia.
  pose proof (Z.div_mod (n - 1) C ltac:(lia)) as Hdm.
  pose proof (Z.mod_pos_bound (n - 1) C HC) as Hm.
  pose proof (Z.div_pos (n - 1) C ltac:(lia) HC) as Hq.
  split; [lia|]. nia.
Qed.

Lemma py_range_positions (n C : Z) :
  0 < C ->
  py_range 0 n C
  = Ok (map (fun i => Z.of_nat i * C) (seq 0 (Z.to_nat (range_len 0 n C)))).
Proof.
  intros HC. unfold py_range.
  destruct (Z.eqb_spec C 0); [lia|]. reflexivity.
Qed.

Lemma chunker_blocks_at {A} (l : list A) (C : Z) :
  0 < C ->
  chunker l C
  = Ok (blocks_at l (Z.to_nat C) (Z.to_nat (range_len 0 (len l) C))).
Proof.
  intros HC. unfold chunker. rewrite py_range_positions by assumption.
  simpl. f_equal. unfold blocks_at. rewrite map_map.
  apply map_ext; intros i.
  rewrite py_slice_block by lia. do 2 f_equal.
  rewrite Z2Nat.inj_mul, Nat2Z.id; lia.
Qed.

Lemma get_checksum_blocks (rt : runtime) (variant : string)
    (ci : checksum_info) (data : bytes) (C : Z) :
  py_getitem (checksums rt) variant = Ok ci ->
  0 < C ->
  get_checksum rt C data variant
  = Ok (final ci
          (update_blocks ci
             (blocks_at data (Z.to_nat C) (Z.to_nat (range_len 0 (len data) C)))
             (init ci tt))).
Proof.
  intros Hci HC. unfold get_checksum. rewrite Hci; simpl.
  rewrite py_range_positions by assumption. simpl. do 3 f_equal.
  unfold blocks_at. rewrite map_map.
  apply map_ext; intros i.
  rewrite py_slice_block by lia. do 2 f_equal.
  rewrite Z2Nat.inj_mul, Nat2Z.id; lia.
Qed.

Lemma blocks_cover {A} (l : list A) (C : Z) :
  0 < C ->
  (length l <= Z.to_nat (range_len 0 (len l) C) * Z.to_nat C
   < length l + Z.to_nat C)%nat.
Proof.
  intros HC.
  pose proof (range_len_bounds (len l) C ltac:(unfold len; lia) HC) as [Hk Hb].
  unfold len in *. lia.
Qed.

Lemma concat_chunks {A} (l : list A) (C : Z) :
  0 < C ->
  concat (blocks_at l (Z.to_nat C) (Z.to_nat (range_len 0 (len l) C))) = l.
Proof.
  intros HC. rewrite concat_blocks_at.
  apply firstn_all2. apply (blocks_cover l C HC).
Qed.

(* ================================================================= *)
(** ** The registered algorithms consume their input as a stream *)

Lemma mask32_ones : mask32 = Z.ones 32.
Proof. reflexivity. Qed.

Lemma in32_bits (c : Z) :
  in32 c <-> forall i, 32 <= i -> Z.testbit c i = false.
Proof.
  unfold in32. rewrite mask32_ones. split.
  - intros H i Hi. rewrite <- H, Z.land_spec, Z.ones_spec_high by lia.
    apply andb_false_r.
  - intros H. apply Z.bits_inj'; intros i Hi.
    rewrite Z.land_spec.
    destruct (Z_lt_ge_dec i 32).
    + rewrite Z.ones_spec_low by lia. apply andb_true_r.
    + rewrite H by lia. reflexivity.
Qed.

Lemma in32_lxor (a b : Z) : in32 a -> in32 b -> in32 (Z.lxor a b).
Proof.
  rewrite !in32_bits. intros Ha Hb i Hi.
  now rewrite Z.lxor_spec, Ha, Hb.
Qed.

Lemma in32_shiftr (a : Z) : in32 a -> in32 (Z.shiftr a 1).
Proof.
  rewrite !in32_bits. intros Ha i Hi.
  rewrite Z.shiftr_spec by lia. apply Ha; lia.
Qed.

Lemma in32_land (a : Z) : in32 (Z.land a mask32).
Proof.
  unfold in32. now rewrite <- Z.land_assoc, Z.land_diag.
Qed.

Lemma in32_byte_val (b : byte) : in32 (byte_val b).
Proof. destruct b; reflexivity. Qed.

Lemma in32_crc_shift (poly c : Z) :
  in32 poly -> in32 c -> in32 (crc_shift poly c).
Proof.
  intros Hp Hc. unfold crc_shift.
  destruct (Z.testbit c 0); auto using in32_lxor, in32_shiftr.
Qed.

Lemma in32_crc_byte (poly c : Z) (b : byte) :
  in32 poly -> in32 c -> in32 (crc_byte poly c b).
Proof.
  intros Hp Hc. unfold crc_byte.
  assert (H : in32 (Z.lxor c (byte_val b)))
    by auto using in32_lxor, in32_byte_val.
  revert H. generalize (Z.lxor c (byte_val b)). generalize 8%nat.
  intros n; induction n as [|n IH]; intros z Hz; simpl; [assumption|].
  apply in32_crc_shift; auto.
Qed.

Lemma in32_crc_fold (poly : Z) (data : bytes) (c : Z) :
  in32 poly -> in32 c -> in32 (fold_left (crc_byte poly) data c).
Proof.
  intros Hp. revert c.
  induction data as [|b data IH]; intros c Hc; simpl; [assumption|].
  apply IH, in32_crc_byte; assumption.
Qed.

Lemma lxor_mask_involutive (c : Z) :
  in32 c -> Z.lxor (Z.land (Z.lxor c mask32) mask32) mask32 = c.
Proof.
  intros Hc.
  assert (H : in32 (Z.lxor c mask32)) by (apply in32_lxor; [assumption|reflexivity]).
  unfold in32 in H. rewrite H, Z.lxor_assoc, Z.lxor_nilpotent.
  apply Z.lxor_0_r.
Qed.

Lemma crc_update_app (poly : Z) (b1 b2 : bytes) (value : Z) :
  in32 poly ->
  crc_update poly (b1 ++ b2) value
  = crc_update poly b2 (crc_update poly b1 value).
Proof.
  intros Hp. unfold crc_update. rewrite fold_left_app.
  rewrite lxor_mask_involutive; [reflexivity|].
  apply in32_crc_fold; [assumption|].
  apply in32_lxor; [apply in32_land|reflexivity].
Qed.

Lemma small_bits (a n i : Z) :
  0 <= a < 2 ^ n -> 0 <= n <= i -> Z.testbit a i = false.
Proof.
  intros Ha Hi. rewrite <- (Z.mod_small a (2 ^ n)) by assumption.
  apply Z.mod_pow2_bits_high. lia.
Qed.

Lemma adler_unpack (a b : Z) :
  0 <= a < 2 ^ 16 -> 0 <= b < 2 ^ 16 ->
  Z.land (Z.lor (Z.shiftl b 16) a) 0xffff = a /\
  Z.land (Z.shiftr (Z.lor (Z.shiftl b 16) a) 16) 0xffff = b.
Proof.
  intros Ha Hb. change 0xffff with (Z.ones 16). split.
  - apply Z.bits_inj'; intros i Hi.
    rewrite Z.land_spec, Z.lor_spec, Z.shiftl_spec by lia.
    destruct (Z_lt_ge_dec i 16).
    + rewrite Z.ones_spec_low, Z.testbit_neg_r by lia.
      simpl. apply andb_true_r.
    + rewrite Z.ones_spec_high, (small_bits a 16 i) by lia.
      apply andb_false_r.
  - apply Z.bits_inj'; intros i Hi.
    rewrite Z.land_spec, Z.shiftr_spec, Z.lor_spec, Z.shiftl_spec by lia.
    replace (i + 16 - 16) with i by lia.
    rewrite (small_bits a 16 (i + 16)) by lia. rewrite orb_false_r.
    destruct (Z_lt_ge_dec i 16).
    + rewrite Z.ones_spec_low by lia. apply andb_true_r.
    + rewrite Z.ones_spec_high, (small_bits b 16 i) by lia. reflexivity.
Qed.

Lemma land_ffff_range (v : Z) : 0 <= Z.land v 0xffff < 2 ^ 16.
Proof.
  change 0xffff with (Z.ones 16). rewrite Z.land_ones by lia.
  apply Z.mod_pos_bound. lia.
Qed.

Lemma adler_fold_range (data : bytes) (s : Z * Z) :
  0 <= fst s < 2 ^ 16 -> 0 <= snd s < 2 ^ 16 ->
  0 <= fst (fold_left adler_byte data s) < 2 ^ 16 /\
  0 <= snd (fold_left adler_byte data s) < 2 ^ 16.
Proof.
  revert s. induction data as [|b data IH]; intros s Ha Hb; simpl; [tauto|].
  apply IH; unfold adler_byte, adler_base; simpl;
    match goal with
    | |- context [?x mod 65521] =>
        pose proof (Z.mod_pos_bound x 65521 ltac:(lia)); lia
    end.
Qed.

Lemma zlib_adler32_app (b1 b2 : bytes) (value : Z) :
  zlib_adler32 (b1 ++ b2) value = zlib_adler32 b2 (zlib_adler32 b1 value).
Proof.
  unfold zlib_adler32. rewrite fold_left_app.
  set (s1 := fold_left adler_byte b1 _).
  destruct (adler_fold_range b1
              (Z.land value 0xffff, Z.land (Z.shiftr value 16) 0xffff))
    as [Ha Hb]; try apply land_ffff_range.
  fold s1 in Ha, Hb.
  destruct (adler_unpack (fst s1) (snd s1) Ha Hb) as [-> ->].
  now rewrite <- surjective_pairing.
Qed.

Lemma registry_streaming (rt : runtime) :
  Forall (fun item => streaming (snd item) /\ neutral_on_empty (snd item))
    (checksums rt).
Proof.
  unfold checksums.
  apply Forall_app; split; [|apply Forall_app; split].
  - repeat (apply Forall_cons; [split; [intros s b1 b2; simpl|reflexivity]|]);
      try apply Forall_nil.
    + apply crc_update_app; reflexivity.
    + apply crc_update_app; reflexivity.
    + apply zlib_adler32_app.
  - destruct (crc32c rt); [|apply Forall_nil].
    apply Forall_cons; [split; [intros s b1 b2; simpl|reflexivity]|apply Forall_nil].
    apply crc_update_app; reflexivity.
  - destruct (xxhash rt) as [intdigest|]; [|apply Forall_nil].
    apply Forall_cons; [split; [intros s b1 b2; simpl|reflexivity]|apply Forall_nil].
    unfold _update_xxhash. apply app_assoc.
Qed.

Lemma py_getitem_In {V} (d : list (string * V)) (key : string) (v : V) :
  py_getitem d key = Ok v -> In (key, v) d.
Proof.
  induction d as [|[k v'] d IH]; simpl; [discriminate|].
  destruct (String.eqb_spec k key) as [->|Hne].
  - intros [= ->]. now left.
  - intros H. right. auto.
Qed.

Lemma registered_streaming (rt : runtime) (variant : string)
    (ci : checksum_info) :
  py_getitem (checksums rt) variant = Ok ci ->
  streaming ci /\ neutral_on_empty ci.
Proof.
  intros H. apply py_getitem_In in H.
  pose proof (registry_streaming rt) as HF.
  rewrite Forall_forall in HF. apply (HF _ H).
Qed.

Lemma update_blocks_concat (ci : checksum_info) (blocks : list bytes)
    (s : State ci) :
  streaming ci -> blocks <> [] ->
  update_blocks ci blocks s = method ci (concat blocks) s.
Proof.
  intros Hs. revert s.
  induction blocks as [|b blocks IH]; intros s Hne; [congruence|].
  destruct blocks as [|b' blocks].
  - simpl. now rewrite app_nil_r.
  - change (update_blocks ci (b :: b' :: blocks) s)
      with (update_blocks ci (b' :: blocks) (method ci b s)).
    rewrite IH by discriminate.
    change (concat (b :: b' :: blocks)) with (b ++ concat (b' :: blocks)).
    now rewrite Hs.
Qed.

(* ================================================================= *)
(** ** [checksum_data] *)

Lemma checksum_data_whole (rt : runtime) (variant : string)
    (ci : checksum_info) (data : bytes) (w : world) :
  py_getitem (checksums rt) variant = Ok ci ->
  checksum_data rt data 0 variant w
  = (Ok (final ci (method ci data (init ci tt)),
         clock w (ticks w),
         PrimFloat.sub (clock w (S (ticks w))) (clock w (ticks w))),
     advance 2 w).
Proof.
  intros Hci. unfold checksum_data. change (0 =? 0) with true.
  cbv beta iota delta [bind time_time lift ret].
  rewrite Hci. reflexivity.
Qed.

Lemma checksum_data_chunked (rt : runtime) (variant : string)
    (ci : checksum_info) (data : bytes) (C : Z) (w : world) :
  py_getitem (checksums rt) variant = Ok ci ->
  0 < C ->
  checksum_data rt data C variant w
  = (Ok (final ci
           (update_blocks ci
              (blocks_at data (Z.to_nat C)
                 (Z.to_nat (range_len 0 (len data) C)))
              (init ci tt)),
         clock w (ticks w),
         PrimFloat.sub (clock w (S (ticks w))) (clock w (ticks w))),
     advance 2 w).
Proof.
  intros Hci HC. unfold checksum_data.
  destruct (Z.eqb_spec C 0); [lia|].
  cbv beta iota delta [bind time_time lift ret].
  rewrite (get_checksum_blocks rt variant ci data C Hci HC). reflexivity.
Qed.

Lemma blocks_at_nonempty {A} (l : list A) (C : Z) :
  0 < C -> l <> [] ->
  blocks_at l (Z.to_nat C) (Z.to_nat (range_len 0 (len l) C)) <> [].
Proof.
  intros HC Hl Hb.
  pose proof (concat_chunks l C HC) as Hc. rewrite Hb in Hc. simpl in Hc.
  congruence.
Qed.

Lemma blocks_at_nil {A} (C : Z) :
  blocks_at (@nil A) (Z.to_nat C) (Z.to_nat (range_len 0 (len (@nil A)) C)) = [].
Proof.
  unfold range_len, len; simpl.
  destruct (0 <? C); reflexivity.
Qed.

(** The checksum of the chunked path, for a registered streaming
    algorithm, is that of the whole buffer. *)
Lemma chunked_checksum_whole (rt : runtime) (variant : string)
    (ci : checksum_info) (data : bytes) (C : Z) :
  py_getitem (checksums rt) variant = Ok ci ->
  0 < C -> streaming ci ->
  final ci
    (update_blocks ci
       (blocks_at data (Z.to_nat C) (Z.to_nat (range_len 0 (len data) C)))
       (init ci tt))
  = final ci (method ci data (init ci tt)).
Proof.
  intros Hci HC Hs. destruct data as [|b data].
  - rewrite blocks_at_nil. simpl.
    destruct (registered_streaming rt variant ci Hci) as [_ Hn].
    unfold neutral_on_empty in Hn. now rewrite Hn.
  - rewrite update_blocks_concat; auto.
    + now rewrite concat_chunks.
    + apply blocks_at_nonempty; [assumption|discriminate].
Qed.

(** C1: for a registered algorithm whose update is associative across
    chunk boundaries, every chunk size [C > 0] and every buffer,
    [checksum_data] returns the checksum that it returns with the
    sentinel [0], whatever the clock reads. *)
Theorem chunking_preserves_checksum (rt : runtime) (variant : string)
    (ci : checksum_info) (data : bytes) (C : Z) (w w' : world) :
  py_getitem (checksums rt) variant = Ok ci ->
  0 < C ->
  streaming ci ->
  crc_of (checksum_data rt data C variant w)
  = crc_of (checksum_data rt data 0 variant w')
  /\ exists crc, crc_of (checksum_data rt data 0 variant w') = Ok crc.
Proof.
  intros Hci HC Hs.
  rewrite (checksum_data_chunked rt variant ci data C w Hci HC).
  rewrite (checksum_data_whole rt variant ci data w' Hci).
  unfold crc_of; simpl. split; [|eauto].
  f_equal. now apply (chunked_checksum_whole rt variant).
Qed.

Lemma chunking_preserves_checksum_adler32 :
  crc_of (checksum_data no_xx check_bytes 4 "adler32" w0)
  = crc_of (checksum_data no_xx check_bytes 0 "adler32" w0)
  /\ exists crc, crc_of (checksum_data no_xx check_bytes 0 "adler32" w0) = Ok crc.
Proof.
  eapply chunking_preserves_checksum.
  - reflexivity.
  - lia.
  - intros s b1 b2. apply zlib_adler32_app.
Defined.

(** C5: for a chunk size [C > 0] the executor cuts the buffer into
    consecutive slices of [C] bytes taken at the positions [0], [C],
    [2C], ... in ascending order: no slice is empty, every slice but
    the last has exactly [C] bytes, the slices concatenated are the
    buffer, and [get_checksum] threads the running value through one
    update per slice, in that order, and applies [final] once. *)
Theorem chunked_executor_partition (rt : runtime) (variant : string)
    (ci : checksum_info) (data : bytes) (C : Z) :
  py_getitem (checksums rt) variant = Ok ci ->
  0 < C ->
  exists blocks : list bytes,
    chunker data C = Ok blocks
    /\ concat blocks = data
    /\ (forall i, (i < length blocks)%nat ->
          nth i blocks []
          = firstn (Z.to_nat C) (skipn (i * Z.to_nat C) data)
          /\ (1 <= length (nth i blocks []) <= Z.to_nat C)%nat
          /\ ((S i < length blocks)%nat ->
              length (nth i blocks []) = Z.to_nat C))
    /\ get_checksum rt C data variant
       = Ok (final ci
               (fold_left (fun crc block => method ci block crc) blocks
                  (init ci tt))).
Proof.
  intros Hci HC.
  exists (blocks_at data (Z.to_nat C) (Z.to_nat (range_len 0 (len data) C))).
  split; [now apply chunker_blocks_at|].
  split; [now apply concat_chunks|].
  split; [|now apply get_checksum_blocks].
  intros i. rewrite length_blocks_at. intros Hi.
  rewrite nth_blocks_at by assumption.
  split; [reflexivity|].
  rewrite length_firstn, length_skipn.
  pose proof (blocks_cover data C HC) as Hcov.
  set (k := Z.to_nat (range_len 0 (len data) C)) in *.
  set (c := Z.to_nat C) in *.
  assert (Hc : (0 < c)%nat) by (subst c; lia).
  split; [nia|]. intros HS. nia.
Qed.

Lemma chunked_executor_partition_sample :
  exists blocks : list bytes,
    chunker check_bytes 4 = Ok blocks
    /\ concat blocks = check_bytes
    /\ (forall i, (i < length blocks)%nat ->
          nth i blocks []
          = firstn (Z.to_nat 4) (skipn (i * Z.to_nat 4) check_bytes)
          /\ (1 <= length (nth i blocks []) <= Z.to_nat 4)%nat
          /\ ((S i < length blocks)%nat ->
              length (nth i blocks []) = Z.to_nat 4))
    /\ get_checksum no_xx 4 check_bytes "crc32"
       = Ok (Z.land
               (fold_left (fun crc block => binascii_crc32 block crc) blocks 0)
               0xffffffff).
Proof.
  pose proof (chunked_executor_partition no_xx "crc32" _ check_bytes 4
                eq_refl) as H.
  apply H. lia.
Defined.

Lemma get_checksum_empty (rt : runtime) (variant : string)
    (ci : checksum_info) (C : Z) :
  py_getitem (checksums rt) variant = Ok ci ->
  C <> 0 ->
  get_checksum rt C [] variant = Ok (final ci (init ci tt)).
Proof.
  intros Hci HC. unfold get_checksum. rewrite Hci.
  cbv beta iota delta [rbind]. unfold py_range.
  destruct (Z.eqb_spec C 0); [contradiction|].
  unfold range_len, len; simpl.
  destruct (0 <? C); reflexivity.
Qed.

Lemma registry_int_identity (rt : runtime) :
  Forall (fun item =>
            fst item <> "xxhash32" ->
            final (snd item) (init (snd item) tt) = 0)
    (checksums rt).
Proof.
  unfold checksums.
  apply Forall_app; split; [|apply Forall_app; split].
  - repeat (apply Forall_cons; [reflexivity|]). apply Forall_nil.
  - destruct (crc32c rt); [|apply Forall_nil].
    apply Forall_cons; [reflexivity|apply Forall_nil].
  - destruct (xxhash rt) as [intdigest|]; [|apply Forall_nil].
    apply Forall_cons; [|apply Forall_nil]. simpl. congruence.
Qed.

(** C6: on an empty buffer, for every registered algorithm and every
    chunk size, [checksum_data] returns [final(init())] and does not
    raise; the unchunked path, which applies [update] to the empty
    buffer, yields that same value; for the algorithms whose running
    value is an integer it is [0]. *)
Theorem empty_buffer_identity (rt : runtime) (variant : string)
    (ci : checksum_info) (C : Z) (w : world) :
  py_getitem (checksums rt) variant = Ok ci ->
  crc_of (checksum_data rt [] C variant w) = Ok (final ci (init ci tt))
  /\ final ci (method ci [] (init ci tt)) = final ci (init ci tt)
  /\ (variant <> "xxhash32" -> final ci (init ci tt) = 0).
Proof.
  intros Hci.
  destruct (registered_streaming rt variant ci Hci) as [_ Hn].
  unfold neutral_on_empty in Hn.
  split; [|split].
  - destruct (Z.eq_dec C 0) as [->|HC].
    + rewrite (checksum_data_whole rt variant ci [] w Hci).
      unfold crc_of; simpl. now rewrite Hn.
    + unfold checksum_data. destruct (Z.eqb_spec C 0); [contradiction|].
      cbv beta iota delta [bind time_time lift ret].
      rewrite (get_checksum_empty rt variant ci C Hci HC). reflexivity.
  - now rewrite Hn.
  - pose proof (registry_int_identity rt) as HF.
    rewrite Forall_forall in HF.
    apply (HF _ (py_getitem_In _ _ _ Hci)).
Qed.

Lemma empty_buffer_identity_crc32 :
  crc_of (checksum_data no_xx [] 512 "crc32" w0) = Ok (Z.land 0 0xffffffff)
  /\ Z.land (binascii_crc32 [] 0) 0xffffffff = Z.land 0 0xffffffff
  /\ ("crc32" <> "xxhash32" -> Z.land 0 0xffffffff = 0).
Proof.
  exact (empty_buffer_identity no_xx "crc32" _ 512 w0 eq_refl).
Defined.

(* ================================================================= *)
(** ** Tasks under the four strategies *)

Lemma advance_advance (a b : nat) (w : world) :
  advance a (advance b w) = advance (a + b) w.
Proof. unfold advance; simpl. f_equal. lia. Qed.

Lemma advance_0 (w : world) : advance 0 w = w.
Proof. now destruct w. Qed.

(** The checksum that every task of a combination returns. *)
Lemma checksum_data_reference (rt : runtime) (variant : string)
    (ci : checksum_info) (data : bytes) (C : Z) (w : world) :
  py_getitem (checksums rt) variant = Ok ci ->
  0 <= C ->
  checksum_data rt data C variant w
  = (Ok (final ci (method ci data (init ci tt)),
         clock w (ticks w),
         PrimFloat.sub (clock w (S (ticks w))) (clock w (ticks w))),
     advance 2 w).
Proof.
  intros Hci HC. destruct (Z.eq_dec C 0) as [->|Hne].
  - now apply checksum_data_whole.
  - rewrite (checksum_data_chunked rt variant ci data C w Hci) by lia.
    rewrite (chunked_checksum_whole rt variant ci data C Hci); [reflexivity|lia|].
    apply (registered_streaming rt variant ci Hci).
Qed.

Section MapTasks.
Variable f : Z -> M task_result.
Variable crc : Z.
Variable inv : world -> Prop.
Hypothesis inv_advance : forall n w, inv w -> inv (advance n w).
Hypothesis f_task :
  forall i w, inv w ->
    exists start elapsed, f i w = (Ok (crc, start, elapsed), advance 2 w).

Lemma map_M_tasks (xs : list Z) (w : world) :
  inv w ->
  exists res,
    map_M f xs w = (Ok res, advance (2 * length xs) w)
    /\ length res = length xs
    /\ Forall (fun r => fst (fst r) = crc) res.
Proof.
  revert w. induction xs as [|x xs IH]; intros w Hw.
  - exists []. simpl; unfold ret. rewrite advance_0. auto.
  - destruct (f_task x w Hw) as (start & elapsed & Hf).
    destruct (IH (advance 2 w) (inv_advance 2 w Hw)) as (res & Hm & Hl & Hall).
    exists ((crc, start, elapsed) :: res).
    simpl map_M. cbv beta iota delta [bind ret]. rewrite Hf, Hm.
    rewrite advance_advance. repeat split.
    + do 2 f_equal. simpl. lia.
    + simpl. now rewrite Hl.
    + constructor; [reflexivity|assumption].
Qed.
End MapTasks.

Lemma py_range_count (n : Z) :
  exists indices,
    py_range 0 n 1 = Ok indices /\ len indices = Z.max 0 n.
Proof.
  unfold py_range. change (1 =? 0) with false. cbv iota.
  eexists; split; [reflexivity|].
  unfold len. rewrite length_map, length_seq.
  unfold range_len. change (0 <? 1) with true. cbv iota.
  destruct (Z.ltb_spec 0 n).
  - rewrite Z.div_1_r. lia.
  - change (Z.to_nat 0) with 0%nat. lia.
Qed.


(** C2: under each of the four strategies, for a registered algorithm,
    a chunk size [C >= 0], any buffer and [N >= 1] tasks, the pool is
    set up and every combination run afterwards collects [N] results,
    all of which carry the checksum of the single unchunked
    computation over the buffer. *)
Theorem tasks_agree_with_reference (rt : runtime) (opts : options)
    (data : bytes) (size_mb : float) (C : Z) (variant : string)
    (ci : checksum_info) (w0 w_ref : world) :
  exclusive opts = true ->
  1 <= number_tasks opts ->
  py_getitem (checksums rt) variant = Ok ci ->
  0 <= C ->
  exists p data' w1,
    _get_pool opts data size_mb w0 = (Ok (p, data'), w1)
    /\ forall w,
         _shmem_val w = _shmem_val w1 ->
         exists res w',
           run_combination rt opts p data' C variant w = (Ok res, w')
           /\ _shmem_val w' = _shmem_val w
           /\ len res = number_tasks opts
           /\ Forall (fun r =>
                        Ok (fst (fst r))
                        = crc_of (checksum_data rt data 0 variant w_ref)) res.
Proof.
  intros Hex HN Hci HC.
  rewrite (checksum_data_whole rt variant ci data w_ref Hci).
  unfold crc_of; simpl fst.
  set (ref := final ci (method ci data (init ci tt))).
  destruct (py_range_count (number_tasks opts)) as (indices & Hr & Hlen).
  assert (Hlocal : forall w,
    exists res,
      map_M (fun _ : Z => checksum_data rt data C variant) indices w
      = (Ok res, advance (2 * length indices) w)
      /\ length res = length indices
      /\ Forall (fun r => fst (fst r) = ref) res).
  { intros w. apply (map_M_tasks _ ref (fun _ => True)); auto.
    intros i w2 _. do 2 eexists.
    apply (checksum_data_reference rt variant ci data C w2 Hci HC). }
  assert (Hshared : forall w, _shmem_val w = Some data ->
    exists res,
      map_M (_checksum_data_shmem_proc rt C variant) indices w
      = (Ok res, advance (2 * length indices) w)
      /\ length res = length indices
      /\ Forall (fun r => fst (fst r) = ref) res).
  { intros w Hw.
    apply (map_M_tasks _ ref (fun w => _shmem_val w = Some data)); auto.
    intros i w2 Hw2. unfold _checksum_data_shmem_proc.
    cbv beta iota delta [bind get_shmem_val]. rewrite Hw2.
    do 2 eexists.
    apply (checksum_data_reference rt variant ci data C w2 Hci HC). }
  assert (Hdone : forall (res : list task_result) w,
            length res = length indices ->
            Forall (fun r => fst (fst r) = ref) res ->
            _shmem_val (advance (2 * length indices) w) = _shmem_val w
            /\ len res = number_tasks opts
            /\ Forall (fun r => Ok (fst (fst r)) = Ok ref) res).
  { intros res w Hl Hall. split; [reflexivity|]. split.
    - unfold len in *. lia.
    - eapply Forall_impl; [|exact Hall]. simpl. now intros a ->. }
  unfold run_combination, _get_pool, _get_checksum_function, exclusive in *.
  destruct (threads opts), (processes opts), (processes_copy opts);
    try discriminate.
  - (* threads *)
    unfold ThreadPool. destruct (Z.ltb_spec (number_tasks opts) 1); [lia|].
    do 3 eexists. split; [reflexivity|]. intros w _.
    cbv beta iota delta [bind lift]. rewrite Hr.
    destruct (Hlocal w) as (res & Hm & Hl & Hall).
    exists res, (advance (2 * length indices) w). simpl pool_map.
    rewrite Hm. split; [reflexivity|]. now apply Hdone.
  - (* processes *)
    unfold Pool. destruct (Z.ltb_spec (number_tasks opts) 1); [lia|].
    do 3 eexists. split; [reflexivity|]. intros w Hw.
    cbv beta iota delta [bind lift]. rewrite Hr.
    destruct (Hshared w Hw) as (res & Hm & Hl & Hall).
    exists res, (advance (2 * length indices) w). simpl pool_map.
    rewrite Hm. split; [reflexivity|]. now apply Hdone.
  - (* processes_copy *)
    unfold Pool. destruct (Z.ltb_spec (number_tasks opts) 1); [lia|].
    do 3 eexists. split; [reflexivity|]. intros w _.
    cbv beta iota delta [bind lift]. rewrite Hr.
    destruct (Hlocal w) as (res & Hm & Hl & Hall).
    exists res, (advance (2 * length indices) w). simpl pool_map.
    unfold _checksum_data_proc. rewrite Hm.
    split; [reflexivity|]. now apply Hdone.
  - (* serial *)
    do 3 eexists. split; [reflexivity|]. intros w _.
    cbv beta iota delta [bind lift]. rewrite Hr.
    destruct (Hlocal w) as (res & Hm & Hl & Hall).
    exists res, (advance (2 * length indices) w). simpl pool_map.
    rewrite Hm. split; [reflexivity|]. now apply Hdone.
Qed.

Lemma tasks_agree_with_reference_processes :
  exists p data' w1,
    _get_pool three_processes check_bytes 0%float w0 = (Ok (p, data'), w1)
    /\ forall w,
         _shmem_val w = _shmem_val w1 ->
         exists res w',
           run_combination no_xx three_processes p data' 4 "crc32" w
           = (Ok res, w')
           /\ _shmem_val w' = _shmem_val w
           /\ len res = 3
           /\ Forall (fun r =>
                        Ok (fst (fst r))
                        = crc_of (checksum_data no_xx check_bytes 0 "crc32" w0))
                res.
Proof.
  exact (tasks_agree_with_reference no_xx three_processes check_bytes 0%float 4
           "crc32" _ w0 w0 eq_refl ltac:(simpl; lia) eq_refl ltac:(lia)).
Defined.

(* ================================================================= *)
(** ** The loop of the driver *)

Lemma bind_ok_inv {A B} (c : M A) (k : A -> M B) (w w' : world) (b : B) :
  bind c k w = (Ok b, w') ->
  exists a w1, c w = (Ok a, w1) /\ k a w1 = (Ok b, w').
Proof.
  unfold bind. destruct (c w) as [[a|e] w1]; [eauto|discriminate].
Qed.

Lemma rows_of_app (out1 out2 : list out_event) :
  rows_of (out1 ++ out2) = rows_of out1 ++ rows_of out2.
Proof.
  induction out1 as [|e out1 IH]; [reflexivity|].
  destruct e; simpl; now rewrite IH.
Qed.

Section NoRow.
Lemma no_row_ret {A} (a : A) : prints_no_row (ret a).
Proof. intros w r w' [= <- <-]. reflexivity. Qed.

Lemma no_row_raise {A} (e : exn) : prints_no_row (@raise A e).
Proof. intros w r w' [= <- <-]. reflexivity. Qed.

Lemma no_row_lift {A} (x : result A) : prints_no_row (lift x).
Proof. intros w r w' [= <- <-]. reflexivity. Qed.

Lemma no_row_time : prints_no_row time_time.
Proof. intros w r w' [= <- <-]. reflexivity. Qed.

Lemma no_row_get_shmem : prints_no_row get_shmem_val.
Proof. intros w r w' [= <- <-]. reflexivity. Qed.

Lemma no_row_set_shmem (val : bytes) : prints_no_row (set_shmem_val val).
Proof. intros w r w' [= <- <-]. reflexivity. Qed.

Lemma no_row_print (e : out_event) :
  rows_of [e] = [] -> prints_no_row (print e).
Proof.
  intros He w r w' [= <- <-]. simpl.
  now rewrite rows_of_app, He, app_nil_r.
Qed.

Lemma no_row_bind {A B} (c : M A) (k : A -> M B) :
  prints_no_row c -> (forall a, prints_no_row (k a)) ->
  prints_no_row (bind c k).
Proof.
  intros Hc Hk w r w'. unfold bind.
  destruct (c w) as [[a|e] w1] eqn:Ec.
  - intros H. rewrite (Hk a _ _ _ H). apply (Hc _ _ _ Ec).
  - intros [= <- <-]. apply (Hc _ _ _ Ec).
Qed.

Lemma no_row_for_each {A} (xs : list A) (body : A -> M unit) :
  (forall x, prints_no_row (body x)) -> prints_no_row (for_each xs body).
Proof.
  intros Hb. induction xs as [|x xs IH]; simpl.
  - apply no_row_ret.
  - apply no_row_bind; auto.
Qed.

Lemma no_row_map_M {A B} (f : A -> M B) (xs : list A) :
  (forall x, prints_no_row (f x)) -> prints_no_row (map_M f xs).
Proof.
  intros Hf. induction xs as [|x xs IH]; simpl.
  - apply no_row_ret.
  - apply no_row_bind; [apply Hf|]. intros y.
    apply no_row_bind; [apply IH|]. intros ys. apply no_row_ret.
Qed.
End NoRow.

Create HintDb no_row.
#[local] Hint Resolve no_row_ret no_row_raise no_row_lift no_row_time
  no_row_get_shmem no_row_set_shmem : no_row.

Ltac no_row :=
  repeat first
    [ apply no_row_bind; [|intro]
    | apply no_row_print; reflexivity
    | solve [auto with no_row] ].

Lemma no_row_checksum_data (rt : runtime) (data : bytes) (bufsize : Z)
    (variant : string) :
  prints_no_row (checksum_data rt data bufsize variant).
Proof. unfold checksum_data. destruct (bufsize =? 0); no_row. Qed.

Lemma no_row_task (rt : runtime) (opts : options) (data : bytes)
    (bufsize : Z) (variant : string) (i : Z) :
  prints_no_row (_get_checksum_function rt opts data bufsize variant i).
Proof.
  unfold _get_checksum_function, _checksum_data_shmem_proc, _checksum_data_proc.
  destruct (processes opts); [|destruct (processes_copy opts)];
    try apply no_row_checksum_data.
  apply no_row_bind; [apply no_row_get_shmem|]. intros [shm|].
  - apply no_row_checksum_data.
  - no_row.
Qed.

Lemma no_row_get_pool (opts : options) (data : bytes) (size_mb : float) :
  prints_no_row (_get_pool opts data size_mb).
Proof.
  unfold _get_pool, ThreadPool, Pool.
  destruct (threads opts); [|destruct (processes opts);
                              [|destruct (processes_copy opts)]];
    destruct (number_tasks opts <? 1); no_row.
Qed.

Lemma get_pool_map (opts : options) (data data' : bytes) (size_mb : float)
    (p : pool) (w w' : world) :
  _get_pool opts data size_mb w = (Ok (p, data'), w') ->
  p = _serial_pool.
Proof.
  unfold _get_pool, ThreadPool, Pool.
  destruct (threads opts); [|destruct (processes opts);
                              [|destruct (processes_copy opts)]];
    destruct (number_tasks opts <? 1);
    cbv beta iota delta [bind ret raise time_time print set_shmem_val];
    intros [= <- _]; reflexivity.
Qed.

Lemma summarize_row (rt : runtime) (variant : string) (bufsize : Z)
    (size_mb t0 : float) (res : list task_result) (args : row) :
  summarize rt variant bufsize size_mb t0 res = Ok args ->
  row_variant args = variant /\ row_bufsize args = bufsize.
Proof.
  unfold summarize.
  destruct (rmap _ _) as [speeds|]; simpl; [|discriminate].
  destruct (negb _); [discriminate|].
  destruct (py_first _); simpl; [|discriminate].
  repeat match goal with
         | |- context [rbind (mean_and_stddev rt ?x) _] =>
             destruct (mean_and_stddev rt x); simpl; [|discriminate]
         end.
  intros [= <-]. auto.
Qed.

Lemma benchmark_one_row (rt : runtime) (opts : options) (data : bytes)
    (size_mb : float) (c : string * Z) (w w' : world) :
  benchmark_one rt opts _serial_pool data size_mb c w = (Ok tt, w') ->
  rows_of (stdout w') = rows_of (stdout w) ++ [(fst c, bufsize_of (snd c))].
Proof.
  destruct c as [variant l]. unfold benchmark_one. intros H.
  apply bind_ok_inv in H as (t0 & w1 & H1 & H).
  apply bind_ok_inv in H as (indices & w2 & H2 & H).
  apply bind_ok_inv in H as (res & w3 & H3 & H).
  apply bind_ok_inv in H as (args & w4 & H4 & H).
  apply no_row_time in H1. apply no_row_lift in H2 as H2'.
  apply (no_row_map_M _ _ (no_row_task rt opts data _ variant)) in H3.
  apply no_row_lift in H4 as H4'.
  injection H4 as H4 _. apply summarize_row in H4 as [Hv Hb].
  injection H as <-. simpl.
  rewrite rows_of_app, H4', H3, H2', H1. simpl.
  now rewrite Hv, Hb.
Qed.

Lemma for_each_rows (rt : runtime) (opts : options) (data : bytes)
    (size_mb : float) (cs : list (string * Z)) (w w' : world) :
  for_each cs (benchmark_one rt opts _serial_pool data size_mb) w = (Ok tt, w') ->
  rows_of (stdout w')
  = rows_of (stdout w) ++ map (fun c => (fst c, bufsize_of (snd c))) cs.
Proof.
  revert w. induction cs as [|c cs IH]; intros w; simpl.
  - intros [= <-]. now rewrite app_nil_r.
  - intros H. apply bind_ok_inv in H as ([] & w1 & H1 & H).
    apply benchmark_one_row in H1. apply IH in H.
    now rewrite H, H1, <- app_assoc.
Qed.

Lemma sweep_chunk_sizes (rt : runtime) :
  map (fun c => (fst c, bufsize_of (snd c))) (sweep rt)
  = flat_map (fun variant => map (pair variant) chunk_sizes)
      (keys (checksums rt)).
Proof.
  unfold sweep, product.
  induction (keys (checksums rt)) as [|variant ks IH]; [reflexivity|].
  cbn [flat_map]. rewrite map_app, IH. f_equal.
Qed.

(** C7: the sweep runs over the algorithms in the iteration order of
    the registry and, for each algorithm, over the chunk sizes 512,
    1024, ..., 1048576 (the powers of two from 2^9 to 2^20, ascending)
    and then 0; a run that completes prints its rows in that order. *)
Theorem sweep_order (rt : runtime) :
  map (fun c => (fst c, bufsize_of (snd c))) (sweep rt)
  = flat_map (fun variant => map (pair variant) chunk_sizes)
      (keys (checksums rt))
  /\ chunk_sizes = map (Z.pow 2) [9; 10; 11; 12; 13; 14; 15; 16; 17; 18; 19; 20]
                   ++ [0]
  /\ forall opts data w w',
       do_benchmarking rt opts data w = (Ok tt, w') ->
       rows_of (stdout w')
       = rows_of (stdout w)
         ++ flat_map (fun variant => map (pair variant) chunk_sizes)
              (keys (checksums rt)).
Proof.
  split; [apply sweep_chunk_sizes|]. split; [reflexivity|].
  intros opts data w w' H. unfold do_benchmarking in H.
  repeat match type of H with
         | bind _ _ _ = _ =>
             let a := fresh "a" in
             let w1 := fresh "w" in
             let H1 := fresh "H" in
             apply bind_ok_inv in H as (a & w1 & H1 & H)
         end.
  destruct a3 as [p data'].
  repeat match type of H with
         | bind _ _ _ = _ =>
             let a := fresh "a" in
             let w1 := fresh "w" in
             let H1 := fresh "H" in
             apply bind_ok_inv in H as (a & w1 & H1 & H)
         end.
  pose proof (get_pool_map _ _ _ _ _ _ _ H4) as ->.
  apply for_each_rows in H. rewrite H, sweep_chunk_sizes. f_equal.
  apply no_row_print in H7; [|reflexivity].
  apply no_row_print in H6; [|reflexivity].
  apply no_row_print in H5; [|reflexivity].
  apply no_row_get_pool in H4.
  apply no_row_for_each in H3; [|intros x; apply no_row_print; reflexivity].
  apply no_row_print in H2; [|reflexivity].
  apply no_row_print in H1; [|reflexivity].
  apply no_row_print in H0; [|reflexivity].
  congruence.
Qed.

Lemma sweep_order_sample_run :
  rows_of (stdout (snd (do_benchmarking no_xx two_tasks check_bytes w0)))
  = rows_of (stdout w0)
    ++ flat_map (fun variant => map (pair variant) chunk_sizes)
         (keys (checksums no_xx)).
Proof.
  apply (proj2 (proj2 (sweep_order no_xx)) two_tasks check_bytes w0).
  vm_compute. reflexivity.
Defined.

Lemma all_equal_iff (crcs : list Z) :
  all_equal crcs = true <-> forall a b, In a crcs -> In b crcs -> a = b.
Proof.
  unfold all_equal. rewrite forallb_forall. split.
  - intros H a b Ha Hb.
    apply H in Ha, Hb. apply Z.eqb_eq in Ha, Hb. congruence.
  - intros H x Hx. apply Z.eqb_eq. apply H; [assumption|].
    destruct crcs as [|c crcs]; [contradiction|]. now left.
Qed.

Lemma all_equal_false_iff (crcs : list Z) :
  all_equal crcs = false <-> exists a b, In a crcs /\ In b crcs /\ a <> b.
Proof.
  split.
  - intros H. unfold all_equal in H.
    assert (Hex : exists x, In x crcs /\ (x =? nth 0 crcs 0) = false).
    { induction crcs as [|c crcs IH] in H |- *; [discriminate|].
      revert H. generalize (nth 0 (c :: crcs) 0). intros d H.
      clear IH. induction (c :: crcs) as [|y ys IH]; [discriminate|].
      simpl in H. destruct (y =? d) eqn:E.
      - destruct (IH H) as (x & Hx & Hne). exists x. split; [now right|assumption].
      - exists y. split; [now left|assumption]. }
    destruct Hex as (x & Hx & Hne). apply Z.eqb_neq in Hne.
    exists x, (nth 0 crcs 0). repeat split; try assumption.
    destruct crcs as [|c crcs]; [contradiction|]. now left.
  - intros (a & b & Ha & Hb & Hne).
    destruct (all_equal crcs) eqn:E; [|reflexivity].
    rewrite all_equal_iff in E. elim Hne. auto.
Qed.

Lemma rmap_raise {A B} (P : exn -> Prop) (f : A -> result B) (xs : list A)
    (e : exn) :
  (forall x e, f x = Raise e -> P e) -> rmap f xs = Raise e -> P e.
Proof.
  intros Hf. induction xs as [|x xs IH]; simpl; [discriminate|].
  destruct (f x) eqn:Ef; simpl.
  - destruct (rmap f xs); simpl; [discriminate|]. intros [= <-]. auto.
  - intros [= <-]. eauto.
Qed.

Lemma py_truediv_raise (a b : float) (e : exn) :
  py_truediv a b = Raise e -> e = ZeroDivisionError.
Proof. unfold py_truediv. destruct (PrimFloat.eqb b 0); congruence. Qed.

Lemma py_pow2_raise (rt : runtime) (v : float) (e : exn) :
  py_pow2 rt v = Raise e -> e = OverflowError.
Proof.
  unfold py_pow2.
  repeat match goal with
         | |- context [if ?b then _ else _] => destruct b
         | |- context [let _ := _ in _] => cbv zeta
         end; try discriminate.
  all: now intros [= <-].
Qed.

Lemma speeds_zero (size_mb : float) (times : list float) :
  Exists (fun t => PrimFloat.eqb t 0 = true) times ->
  rmap (fun t => py_truediv size_mb t) times = Raise ZeroDivisionError.
Proof.
  induction 1 as [t times Ht|t times _ IH]; simpl.
  - unfold py_truediv at 1. now rewrite Ht.
  - destruct (py_truediv size_mb t) eqn:E; simpl.
    + now rewrite IH.
    + now rewrite (py_truediv_raise _ _ _ E).
Qed.

Lemma speeds_nonzero (size_mb : float) (times : list float) :
  Forall (fun t => PrimFloat.eqb t 0 = false) times ->
  exists speeds, rmap (fun t => py_truediv size_mb t) times = Ok speeds
                 /\ length speeds = length times.
Proof.
  induction 1 as [|t times Ht _ (speeds & IH & Hl)]; simpl.
  - now exists [].
  - unfold py_truediv at 1. rewrite Ht. simpl. rewrite IH. simpl.
    eexists; split; [reflexivity|]. simpl. now rewrite Hl.
Qed.

Lemma elapsed_cases (res : list task_result) :
  Exists (fun t => PrimFloat.eqb t 0 = true) (map (fun x => snd x) res)
  \/ Forall (fun t => PrimFloat.eqb t 0 = false) (map (fun x => snd x) res).
Proof.
  induction res as [|x res [IH|IH]]; simpl.
  - right. constructor.
  - left. now right.
  - destruct (PrimFloat.eqb (snd x) 0) eqn:E.
    + left. now left.
    + right. now constructor.
Qed.

Lemma mean_and_stddev_raise (rt : runtime) (x : list float) (e : exn) :
  mean_and_stddev rt x = Raise e -> is_mismatch e = false.
Proof.
  unfold mean_and_stddev, py_truediv_int.
  destruct (len x =? 0); simpl; [now intros [= <-]|].
  destruct (rmap _ x) eqn:Er; simpl.
  - unfold math_sqrt. destruct (PrimFloat.ltb _ 0); simpl; [|discriminate].
    now intros [= <-].
  - intros [= <-].
    apply (rmap_raise (fun e => is_mismatch e = false) _ _ _) in Er;
      [assumption|].
    intros v e' Hp. now rewrite (py_pow2_raise rt _ _ Hp).
Qed.

Lemma py_first_raise (crcs : list Z) (e : exn) :
  py_first crcs = Raise e -> e = IndexError.
Proof. destruct crcs; simpl; congruence. Qed.

Lemma summarize_zero_elapsed (rt : runtime) (variant : string) (bufsize : Z)
    (size_mb t0 : float) (res : list task_result) :
  Exists (fun x => PrimFloat.eqb (snd x) 0 = true) res ->
  summarize rt variant bufsize size_mb t0 res = Raise ZeroDivisionError.
Proof.
  intros H. unfold summarize. rewrite speeds_zero; [reflexivity|].
  apply Exists_exists in H as (x & Hx & Hz).
  apply Exists_exists. exists (snd x). split; [|assumption].
  apply in_map_iff. eauto.
Qed.

Lemma summarize_mismatch (rt : runtime) (variant : string) (bufsize : Z)
    (size_mb t0 : float) (res : list task_result) :
  Forall (fun x => PrimFloat.eqb (snd x) 0 = false) res ->
  all_equal (map (fun x => fst (fst x)) res) = false ->
  summarize rt variant bufsize size_mb t0 res
  = Raise (Exception variant (map (fun x => fst (fst x)) res)).
Proof.
  intros Hnz Hne. unfold summarize.
  destruct (speeds_nonzero size_mb (map (fun x => snd x) res))
    as (speeds & -> & _).
  - rewrite Forall_forall in *. intros t Ht.
    apply in_map_iff in Ht as (x & <- & Hx). auto.
  - simpl. now rewrite Hne.
Qed.

Lemma summarize_consistent (rt : runtime) (variant : string) (bufsize : Z)
    (size_mb t0 : float) (res : list task_result) (e : exn) :
  all_equal (map (fun x => fst (fst x)) res) = true ->
  summarize rt variant bufsize size_mb t0 res = Raise e ->
  is_mismatch e = false.
Proof.
  intros Heq. unfold summarize.
  destruct (rmap _ _) as [speeds|e'] eqn:Es; simpl.
  - rewrite Heq; simpl.
    destruct (py_first _) eqn:Ef; simpl.
    + repeat match goal with
             | |- context [rbind (mean_and_stddev rt ?x) _] =>
                 destruct (mean_and_stddev rt x) eqn:?; simpl;
                 [|intros [= <-]; eapply mean_and_stddev_raise; eassumption]
             end.
      discriminate.
    + intros [= <-]. now rewrite (py_first_raise _ _ Ef).
  - intros [= <-].
    apply (rmap_raise (fun e => is_mismatch e = false) _ _ _) in Es;
      [assumption|].
    intros t e'' Ht. now rewrite (py_truediv_raise _ _ _ Ht).
Qed.

(** What the loop body does once [pool.map] has returned [res]. *)
Lemma benchmark_one_after_map (rt : runtime) (opts : options) (p : pool)
    (data : bytes) (size_mb : float) (variant : string) (l : Z)
    (w w2 : world) (indices : list Z) (res : list task_result) :
  py_range 0 (number_tasks opts) 1 = Ok indices ->
  pool_map p (_get_checksum_function rt opts data (bufsize_of l) variant)
    indices (advance 1 w) = (Ok res, w2) ->
  benchmark_one rt opts p data size_mb (variant, l) w
  = match summarize rt variant (bufsize_of l) size_mb (clock w (ticks w))
            res with
    | Ok args => print (OutRow args) w2
    | Raise e => (Raise e, w2)
    end.
Proof.
  intros Hr Hm. unfold benchmark_one.
  cbv beta iota delta [bind time_time lift]. rewrite Hr.
  change {| clock := clock w; ticks := S (ticks w);
            _shmem_val := _shmem_val w; stdout := stdout w;
            files := files w |} with (advance 1 w).
  rewrite Hm. destruct (summarize _ _ _ _ _); reflexivity.
Qed.

Lemma for_each_raise {A} (x : A) (xs : list A) (body : A -> M unit)
    (w w' : world) (e : exn) :
  body x w = (Raise e, w') -> for_each (x :: xs) body w = (Raise e, w').
Proof. intros H. simpl. unfold bind. now rewrite H. Qed.

Lemma for_each_continue {A} (x : A) (xs : list A) (body : A -> M unit)
    (w w' : world) :
  body x w = (Ok tt, w') -> for_each (x :: xs) body w = for_each xs body w'.
Proof. intros H. simpl. unfold bind. now rewrite H. Qed.



(** C10: when a task of a combination reports an elapsed time of
    exactly zero, the throughput division raises [ZeroDivisionError]:
    the loop stops there, whether or not the checksums agree, and
    prints no row for the combination. *)
Theorem zero_elapsed_time_raises (rt : runtime) (opts : options) (p : pool)
    (data : bytes) (size_mb : float) (variant : string) (l : Z)
    (rest : list (string * Z)) (w w2 : world) (indices : list Z)
    (res : list task_result) :
  py_range 0 (number_tasks opts) 1 = Ok indices ->
  pool_map p (_get_checksum_function rt opts data (bufsize_of l) variant)
    indices (advance 1 w) = (Ok res, w2) ->
  Exists (fun x => PrimFloat.eqb (snd x) 0 = true) res ->
  for_each ((variant, l) :: rest) (benchmark_one rt opts p data size_mb) w
  = (Raise ZeroDivisionError, w2).
Proof.
  intros Hr Hm Hz. apply for_each_raise.
  rewrite (benchmark_one_after_map rt opts p data size_mb variant l w w2
             indices res Hr Hm).
  now rewrite summarize_zero_elapsed.
Qed.

Lemma zero_elapsed_time_raises_still_clock :
  for_each (sweep no_xx)
    (benchmark_one no_xx two_tasks _serial_pool check_bytes 1%float) w_still
  = (Raise ZeroDivisionError, advance 5 w_still).
Proof.
  refine (zero_elapsed_time_raises no_xx two_tasks _serial_pool check_bytes
            1%float "crc32" 9 (tl (sweep no_xx)) w_still (advance 5 w_still)
            [0; 1]
            [(0xCBF43926, 1%float, 0%float); (0xCBF43926, 1%float, 0%float)]
            eq_refl _ _).
  - vm_compute. reflexivity.
  - left. reflexivity.
Defined.

(* ================================================================= *)
(** ** Names that are not registered *)

Lemma py_getitem_unknown {V} (d : list (string * V)) (key : string) :
  ~ In key (keys d) -> py_getitem d key = Raise (KeyError key).
Proof.
  induction d as [|[k v] d IH]; simpl; [reflexivity|].
  intros Hn. destruct (String.eqb_spec k key) as [->|Hne].
  - elim Hn. now left.
  - apply IH. tauto.
Qed.

Lemma py_getitem_known {V} (d : list (string * V)) (key : string) :
  In key (keys d) -> exists v, py_getitem d key = Ok v.
Proof.
  induction d as [|[k v] d IH]; simpl; [contradiction|].
  intros [->|Hin].
  - rewrite String.eqb_refl. eauto.
  - destruct (String.eqb k key); eauto.
Qed.

Lemma sweep_registered (rt : runtime) (c : string * Z) :
  In c (sweep rt) -> exists ci, py_getitem (checksums rt) (fst c) = Ok ci.
Proof.
  unfold sweep, product. intros H.
  apply in_flat_map in H as (variant & Hv & Hc).
  apply in_map_iff in Hc as (l & <- & _).
  now apply py_getitem_known.
Qed.

Section RaisesOnly.
Variable P : exn -> Prop.

Lemma only_ret {A} (a : A) : raises_only P (ret a).
Proof. intros w e w'. discriminate. Qed.

Lemma only_raise {A} (e : exn) : P e -> raises_only P (@raise A e).
Proof. intros He w e' w' [= <- _]. exact He. Qed.

Lemma only_lift {A} (x : result A) :
  (forall e, x = Raise e -> P e) -> raises_only P (lift x).
Proof. intros Hx w e w' [= H _]. auto. Qed.

Lemma only_time : raises_only P time_time.
Proof. intros w e w'. discriminate. Qed.

Lemma only_print (ev : out_event) : raises_only P (print ev).
Proof. intros w e w'. discriminate. Qed.

Lemma only_get_shmem : raises_only P get_shmem_val.
Proof. intros w e w'. discriminate. Qed.

Lemma only_set_shmem (val : bytes) : raises_only P (set_shmem_val val).
Proof. intros w e w'. discriminate. Qed.

Lemma only_bind {A B} (c : M A) (k : A -> M B) :
  raises_only P c -> (forall a, raises_only P (k a)) ->
  raises_only P (bind c k).
Proof.
  intros Hc Hk w e w'. unfold bind.
  destruct (c w) as [[a|e'] w1] eqn:Ec.
  - apply Hk.
  - intros [= <- _]. apply (Hc _ _ _ Ec).
Qed.

Lemma only_for_each {A} (xs : list A) (body : A -> M unit) :
  (forall x, In x xs -> raises_only P (body x)) ->
  raises_only P (for_each xs body).
Proof.
  induction xs as [|x xs IH]; intros Hb; simpl.
  - apply only_ret.
  - apply only_bind; [apply Hb; now left|].
    intros _. apply IH. intros y Hy. apply Hb. now right.
Qed.

Lemma only_map_M {A B} (f : A -> M B) (xs : list A) :
  (forall x, raises_only P (f x)) -> raises_only P (map_M f xs).
Proof.
  intros Hf. induction xs as [|x xs IH]; simpl.
  - apply only_ret.
  - apply only_bind; [apply Hf|]. intros y.
    apply only_bind; [apply IH|]. intros ys. apply only_ret.
Qed.
End RaisesOnly.

Lemma get_checksum_raise (rt : runtime) (bufsize : Z) (data : bytes)
    (variant : string) (ci : checksum_info) (e : exn) :
  py_getitem (checksums rt) variant = Ok ci ->
  get_checksum rt bufsize data variant = Raise e ->
  not_KeyError e.
Proof.
  intros Hci. unfold get_checksum. rewrite Hci. simpl.
  unfold py_range. destruct (bufsize =? 0); simpl; [|discriminate].
  intros [= <-] key. discriminate.
Qed.

Lemma only_checksum_data (rt : runtime) (data : bytes) (bufsize : Z)
    (variant : string) (ci : checksum_info) :
  py_getitem (checksums rt) variant = Ok ci ->
  raises_only not_KeyError (checksum_data rt data bufsize variant).
Proof.
  intros Hci. unfold checksum_data.
  destruct (bufsize =? 0);
    (apply only_bind; [apply only_time|intros start]);
    (apply only_bind; [apply only_lift|intros crc]);
    try (apply only_bind; [apply only_time|intros now; apply only_ret]).
  - rewrite Hci. discriminate.
  - intros e. now apply (get_checksum_raise rt bufsize data variant ci).
Qed.

Lemma only_task (rt : runtime) (opts : options) (data : bytes)
    (bufsize : Z) (variant : string) (ci : checksum_info) (i : Z) :
  py_getitem (checksums rt) variant = Ok ci ->
  raises_only not_KeyError
    (_get_checksum_function rt opts data bufsize variant i).
Proof.
  intros Hci.
  unfold _get_checksum_function, _checksum_data_shmem_proc, _checksum_data_proc.
  destruct (processes opts); [|destruct (processes_copy opts)];
    try now apply (only_checksum_data rt _ _ variant ci).
  apply only_bind; [apply only_get_shmem|]. intros [shm|].
  - now apply (only_checksum_data rt _ _ variant ci).
  - apply only_bind; [apply only_time|intros _].
    apply only_bind; [apply only_lift; rewrite Hci; discriminate|intros _].
    apply only_raise. intros key. discriminate.
Qed.

Lemma only_get_pool (opts : options) (data : bytes) (size_mb : float) :
  raises_only not_KeyError (_get_pool opts data size_mb).
Proof.
  assert (HT : raises_only not_KeyError (ThreadPool (number_tasks opts))).
  { unfold ThreadPool. destruct (_ <? 1); [|apply only_ret].
    apply only_raise. intros key. discriminate. }
  assert (HP : raises_only not_KeyError (Pool (number_tasks opts))).
  { unfold Pool. destruct (_ <? 1); [|apply only_ret].
    apply only_raise. intros key. discriminate. }
  unfold _get_pool.
  destruct (threads opts); [|destruct (processes opts);
                              [|destruct (processes_copy opts)]];
    repeat first
      [ apply only_ret | apply only_time | apply only_print
      | apply only_set_shmem | exact HT | exact HP
      | apply only_bind; [|intro] ].
Qed.

Lemma mean_and_stddev_raise_cases (rt : runtime) (x : list float) (e : exn) :
  mean_and_stddev rt x = Raise e ->
  e = ZeroDivisionError \/ e = OverflowError
  \/ e = ValueError "math domain error".
Proof.
  unfold mean_and_stddev, py_truediv_int.
  destruct (len x =? 0); simpl; [intros [= <-]; auto|].
  destruct (rmap _ x) eqn:Er; simpl.
  - unfold math_sqrt. destruct (PrimFloat.ltb _ 0); simpl; [|discriminate].
    intros [= <-]; auto.
  - intros [= <-]. right; left.
    apply (rmap_raise (fun e => e = OverflowError) _ _ _) in Er;
      [assumption|].
    intros v e' Hp. now rewrite (py_pow2_raise rt _ _ Hp).
Qed.

Lemma summarize_raise (rt : runtime) (variant : string) (bufsize : Z)
    (size_mb t0 : float) (res : list task_result) (e : exn) :
  summarize rt variant bufsize size_mb t0 res = Raise e -> not_KeyError e.
Proof.
  unfold summarize.
  destruct (rmap _ _) as [speeds|e'] eqn:Es; simpl.
  - destruct (negb _); [intros [= <-] key; discriminate|].
    destruct (py_first _) eqn:Ef; simpl.
    + repeat match goal with
             | |- context [rbind (mean_and_stddev rt ?x) _] =>
                 let E := fresh "E" in
                 destruct (mean_and_stddev rt x) eqn:E; simpl;
                 [|intros [= <-] key;
                   apply mean_and_stddev_raise_cases in E
                     as [->|[->| ->]]; discriminate]
             end.
      discriminate.
    + intros [= <-] key. rewrite (py_first_raise _ _ Ef). discriminate.
  - intros [= <-] key.
    apply (rmap_raise (fun e => e = ZeroDivisionError) _ _ _) in Es.
    + subst. discriminate.
    + intros t e''. apply py_truediv_raise.
Qed.

Lemma only_benchmark_one (rt : runtime) (opts : options) (data : bytes)
    (size_mb : float) (c : string * Z) :
  In c (sweep rt) ->
  raises_only not_KeyError
    (benchmark_one rt opts _serial_pool data size_mb c).
Proof.
  intros Hc. destruct (sweep_registered rt c Hc) as [ci Hci].
  destruct c as [variant l]. simpl in Hci. unfold benchmark_one.
  apply only_bind; [apply only_time|intros t0].
  apply only_bind; [apply only_lift|intros indices].
  { unfold py_range. change (1 =? 0) with false. discriminate. }
  apply only_bind; [|intros res].
  { apply only_map_M. intros i. now apply (only_task rt _ _ _ variant ci). }
  apply only_bind; [apply only_lift|intros args; apply only_print].
  intros e. apply summarize_raise.
Qed.

Lemma only_do_benchmarking (rt : runtime) (opts : options) (data : bytes) :
  raises_only not_KeyError (do_benchmarking rt opts data).
Proof.
  unfold do_benchmarking.
  do 3 (apply only_bind; [apply only_print|intros _]).
  apply only_bind; [|intros _].
  { apply only_for_each. intros x _. apply only_print. }
  intros w e w'. unfold bind at 1.
  destruct (_get_pool opts data _ w) as [[[p data']|e'] w1] eqn:Ep.
  - rewrite (get_pool_map _ _ _ _ _ _ _ Ep).
    clear Ep. revert w1 e w'.
    do 3 (apply only_bind; [apply only_print|intros _]).
    apply only_for_each. intros c Hc. now apply only_benchmark_one.
  - intros [= <- _]. apply (only_get_pool _ _ _ _ _ _ Ep).
Qed.

Lemma only_main (rt : runtime) (argv : list arg) :
  raises_only not_KeyError (main rt argv).
Proof.
  unfold main.
  apply only_bind; [apply only_lift|intros opts].
  { unfold parse_args. generalize {| ps_opts := default_options;
      ps_seen_file := false; ps_seen_megabytes := false |}.
    induction argv as [|a argv IH]; intros st e; simpl; [discriminate|].
    destruct (parse_arg st a) as [st'|e'] eqn:Ea; simpl; [apply IH|].
    intros [= <-] key. revert Ea. unfold parse_arg.
    destruct a; repeat match goal with
                       | |- context [if ?b then _ else _] => destruct b
                       end; intros [= <-] || discriminate; discriminate. }
  apply only_bind; [|intros data; apply only_do_benchmarking].
  destruct (file opts) as [path|]; [|apply only_ret].
  destruct (String.eqb path ""); [apply only_ret|].
  apply only_bind; [|intros content].
  - intros w e w'. unfold read_file. destruct (files w path); [discriminate|].
    intros [= <- _] key. discriminate.
  - apply only_bind; [apply only_print|intros _; apply only_ret].
Qed.

(** C8 (as stated) fails: asking for an algorithm that is not in the
    registry is not answered by a configuration error before any work
    is done; [checksum_data] has read the clock when the lookup raises
    [KeyError]. *)
Lemma unregistered_name_is_a_run_time_KeyError :
  ~ (forall (rt : runtime) (data : bytes) (bufsize : Z) (variant : string)
            (w : world),
        ~ In variant (keys (checksums rt)) ->
        exists code,
          checksum_data rt data bufsize variant w = (Raise (SystemExit code), w)).
Proof.
  intros H.
  destruct (H no_xx check_bytes 512 "md5" w0) as [code Hc].
  - simpl. intuition discriminate.
  - vm_compute in Hc. discriminate.
Qed.

(** C8 (amended): the sweep only looks up names taken from the
    registry, so that every lookup of a run succeeds and the program
    never raises [KeyError]; called with a name that is not registered,
    [get_checksum] raises [KeyError] at the lookup, before anything
    else, and [checksum_data] raises it after one reading of the clock,
    before any update. *)
Theorem unregistered_name_raises_KeyError (rt : runtime) (data : bytes)
    (bufsize : Z) (variant : string) (w : world) :
  ~ In variant (keys (checksums rt)) ->
  get_checksum rt bufsize data variant = Raise (KeyError variant)
  /\ checksum_data rt data bufsize variant w
     = (Raise (KeyError variant), advance 1 w)
  /\ (forall c, In c (sweep rt) ->
        exists ci, py_getitem (checksums rt) (fst c) = Ok ci)
  /\ (forall argv w1 e w2,
        main rt argv w1 = (Raise e, w2) -> not_KeyError e).
Proof.
  intros Hn. pose proof (py_getitem_unknown _ _ Hn) as Hk.
  assert (Hg : get_checksum rt bufsize data variant = Raise (KeyError variant)).
  { unfold get_checksum. now rewrite Hk. }
  repeat split.
  - exact Hg.
  - unfold checksum_data. destruct (bufsize =? 0);
      cbv beta iota delta [bind time_time lift]; rewrite ?Hk, ?Hg;
      reflexivity.
  - apply sweep_registered.
  - intros argv w1 e w2. apply only_main.
Qed.

Lemma unregistered_name_raises_KeyError_md5 :
  get_checksum no_xx 512 check_bytes "md5" = Raise (KeyError "md5")
  /\ checksum_data no_xx check_bytes 512 "md5" w0
     = (Raise (KeyError "md5"), advance 1 w0)
  /\ (forall c, In c (sweep no_xx) ->
        exists ci, py_getitem (checksums no_xx) (fst c) = Ok ci)
  /\ (forall argv w1 e w2,
        main no_xx argv w1 = (Raise e, w2) -> not_KeyError e).
Proof.
  apply (unregistered_name_raises_KeyError no_xx check_bytes 512 "md5" w0).
  simpl. intuition discriminate.
Defined.

(* ================================================================= *)
(** ** The number of tasks and the division by the sample count *)

Lemma len_zero_nil {A} (l : list A) : len l = 0 -> l = [].
Proof. unfold len. destruct l; [reflexivity|simpl; lia]. Qed.

Lemma mean_and_stddev_empty (rt : runtime) (x : list float) :
  mean_and_stddev rt x = Raise ZeroDivisionError <-> x = [].
Proof.
  split; [|intros ->; reflexivity].
  unfold mean_and_stddev, py_truediv_int.
  destruct (Z.eqb_spec (len x) 0) as [H0|Hn]; simpl.
  - intros _. now apply len_zero_nil.
  - destruct (rmap _ x) eqn:Er; simpl.
    + unfold math_sqrt. destruct (PrimFloat.ltb _ 0); discriminate.
    + intros [= ->].
      apply (rmap_raise (fun e => e = OverflowError) _ _ _) in Er;
        [discriminate|].
      intros v e' Hp. now rewrite (py_pow2_raise rt _ _ Hp).
Qed.

Lemma speeds_raise (size_mb : float) (times : list float) (e : exn) :
  rmap (fun t => py_truediv size_mb t) times = Raise e ->
  Exists (fun t => PrimFloat.eqb t 0 = true) times.
Proof.
  induction times as [|t times IH]; simpl; [discriminate|].
  unfold py_truediv at 1.
  destruct (PrimFloat.eqb t 0) eqn:Et; simpl; [now left|].
  destruct (rmap _ times); simpl; [discriminate|].
  intros H. right. now apply IH.
Qed.

Lemma rmap_length {A B} (f : A -> result B) (xs : list A) (ys : list B) :
  rmap f xs = Ok ys -> length ys = length xs.
Proof.
  revert ys. induction xs as [|x xs IH]; intros ys; simpl.
  - now intros [= <-].
  - destruct (f x); simpl; [|discriminate].
    destruct (rmap f xs); simpl; [|discriminate].
    intros [= <-]. simpl. now rewrite (IH _ eq_refl).
Qed.

Lemma summarize_zero_division (rt : runtime) (variant : string) (bufsize : Z)
    (size_mb t0 : float) (res : list task_result) :
  summarize rt variant bufsize size_mb t0 res = Raise ZeroDivisionError ->
  Exists (fun x => PrimFloat.eqb (snd x) 0 = true) res.
Proof.
  unfold summarize.
  destruct (rmap _ _) as [speeds|e'] eqn:Es; simpl.
  - destruct (negb _); [discriminate|].
    destruct res as [|r res]; [discriminate|]. simpl py_first. simpl rbind.
    apply rmap_length in Es.
    repeat match goal with
           | |- context [rbind (mean_and_stddev rt ?x) _] =>
               let E := fresh "E" in
               destruct (mean_and_stddev rt x) eqn:E; simpl;
               [|intros [= ->]; apply mean_and_stddev_empty in E;
                 try discriminate E; subst; discriminate Es]
           end.
    discriminate.
  - intros _. apply speeds_raise in Es.
    apply Exists_exists in Es as (t & Ht & Hz).
    apply in_map_iff in Ht as (x & <- & Hx).
    apply Exists_exists. eauto.
Qed.

(** C9 (as stated) fails: the parser accepts a task count below one. *)
Lemma task_count_is_not_bounded :
  ~ (forall argv opts, parse_args argv = Ok opts -> 1 <= number_tasks opts).
Proof.
  intros H.
  specialize (H [Arg_number_tasks 0] _ eq_refl). simpl in H. lia.
Qed.

(** C9 (amended): the parser takes any integer as the number of tasks
    and one when none is given; [mean_and_stddev] divides by zero
    exactly on the empty sequence, and the loop body never hands it
    one: the only division by zero of the loop body is that of the
    throughput by an elapsed time of zero. *)
Theorem sample_count_division :
  (forall n, exists opts,
      parse_args [Arg_number_tasks n] = Ok opts /\ number_tasks opts = n)
  /\ (exists opts, parse_args [] = Ok opts /\ number_tasks opts = 1)
  /\ (forall rt x, mean_and_stddev rt x = Raise ZeroDivisionError <-> x = [])
  /\ (forall rt variant bufsize size_mb t0 res,
        summarize rt variant bufsize size_mb t0 res = Raise ZeroDivisionError ->
        Exists (fun x => PrimFloat.eqb (snd x) 0 = true) res).
Proof.
  split; [|split; [|split]].
  - intros n. eexists. split; reflexivity.
  - eexists. split; reflexivity.
  - apply mean_and_stddev_empty.
  - apply summarize_zero_division.
Qed.

Example no_tasks_serial :
  fst (main no_xx [Arg_number_tasks 0; Arg_megabytes 0] w0) = Raise IndexError.
Proof. vm_compute. reflexivity. Qed.

Example no_tasks_threads :
  fst (main no_xx [Arg_number_tasks 0; Arg_megabytes 0; Arg_threads] w0)
  = Raise (ValueError "Number of processes must be at least 1").
Proof. vm_compute. reflexivity. Qed.

Example still_clock_run :
  fst (do_benchmarking no_xx two_tasks check_bytes w_still)
  = Raise ZeroDivisionError.
Proof. vm_compute. reflexivity. Qed.

(* ================================================================= *)
(** ** Statistics *)

Lemma sf_add_not_neg (x y : spec_float) :
  sf_not_neg x = true -> sf_not_neg y = true ->
  sf_not_neg (SF64add x y) = true.
Proof.
  destruct x as [sx|sx| |sx mx ex], y as [sy|sy| |sy my ey];
    try destruct sx; try destruct sy; try discriminate; try reflexivity.
  intros _ _.
  cbv beta iota zeta delta [SF64add SFadd cond_Zopp binary_normalize Z.add].
  apply sf_plus_not_neg, round_plus.
Qed.

Lemma sf_div_not_neg (x y : spec_float) :
  sf_not_neg x = true -> sf_plus y = true ->
  sf_not_neg (SF64div x y) = true.
Proof.
  destruct x as [sx|sx| |sx mx ex], y as [sy|sy| |sy my ey];
    try destruct sx; try destruct sy; try discriminate; try reflexivity.
  intros _ _. cbv beta iota delta [SF64div SFdiv xorb].
  destruct (SFdiv_core_binary _ _ _ _ _ _) as [[mz ez] lz].
  apply sf_plus_not_neg, round_aux_plus.
Qed.

Lemma float_of_int_plus (n : Z) : sf_plus (Prim2SF (float_of_int n)) = true.
Proof.
  unfold float_of_int. rewrite FloatAxioms.of_uint63_spec.
  pose proof (Uint63.to_Z_bounded (Uint63.of_Z n)) as Hb.
  unfold binary_normalize. destruct (Uint63.to_Z _); [reflexivity| |lia].
  apply round_plus.
Qed.

Lemma sum_not_neg (xs : list float) (acc : float) :
  sf_not_neg (Prim2SF acc) = true ->
  Forall (fun v => sf_not_neg (Prim2SF v) = true) xs ->
  sf_not_neg (Prim2SF (fold_left PrimFloat.add xs acc)) = true.
Proof.
  intros Hacc Hxs. revert acc Hacc.
  induction Hxs as [|v xs Hv _ IH]; intros acc Hacc; simpl; [assumption|].
  apply IH. rewrite FloatAxioms.add_spec. now apply sf_add_not_neg.
Qed.

Lemma is_nan_nan (v : float) : PrimFloat.is_nan v = true -> v = nan.
Proof.
  intros H. apply Prim2SF_inj. unfold Prim2SF at 1. now rewrite H.
Qed.

Lemma is_infinity_cases (v : float) :
  PrimFloat.is_nan v = false -> PrimFloat.is_infinity v = true ->
  v = infinity \/ v = neg_infinity.
Proof.
  intros Hn Hi. unfold is_infinity in Hi.
  rewrite FloatAxioms.eqb_spec, FloatAxioms.abs_spec in Hi.
  rewrite <- (SF2Prim_Prim2SF v).
  destruct (Prim2SF v) as [s|s| |s m e] eqn:E.
  - destruct s; discriminate.
  - destruct s; auto.
  - discriminate.
  - exfalso. revert Hi. change (Prim2SF infinity) with (S754_infinity false).
    simpl. discriminate.
Qed.

(** The operand that [float_pow] hands to the C library is the
    magnitude of [v]. *)
Lemma magnitude (v : float) :
  PrimFloat.eqb v 0 = false ->
  (if PrimFloat.ltb v 0 then PrimFloat.opp v else v) = PrimFloat.abs v.
Proof.
  rewrite FloatAxioms.eqb_spec, FloatAxioms.ltb_spec, Prim2SF_zero.
  intros Hz.
  destruct (Prim2SF v) as [s|s| |s m e] eqn:E.
  - destruct s; discriminate.
  - destruct s; simpl; apply Prim2SF_inj;
      rewrite ?FloatAxioms.opp_spec, FloatAxioms.abs_spec, E; reflexivity.
  - simpl. apply Prim2SF_inj. rewrite FloatAxioms.abs_spec, E. reflexivity.
  - destruct s; simpl; apply Prim2SF_inj;
      rewrite ?FloatAxioms.opp_spec, FloatAxioms.abs_spec, E; reflexivity.
Qed.

(** [d ** 2] raises exactly when the square overflows, and is the
    square otherwise. *)
Lemma py_pow2_overflow (rt : runtime) (d : float) :
  py_pow2 rt d
  = if square_overflows rt d then Raise OverflowError
    else Ok (float_square rt d).
Proof.
  unfold float_square, square_overflows, is_finite, py_pow2.
  destruct (PrimFloat.is_nan d) eqn:En.
  { now rewrite (is_nan_nan d En). }
  destruct (PrimFloat.is_infinity d) eqn:Ei.
  { destruct (is_infinity_cases d En Ei) as [-> | ->]; reflexivity. }
  destruct (PrimFloat.eqb d 0) eqn:E0; [reflexivity|].
  rewrite (magnitude d E0). cbv zeta.
  destruct (PrimFloat.eqb (PrimFloat.abs d) 1); [reflexivity|].
  destruct (PrimFloat.is_infinity (libm_pow2 rt (PrimFloat.abs d)));
    reflexivity.
Qed.

Lemma float_square_not_neg (rt : runtime) (d : float) :
  sf_not_neg (Prim2SF (float_square rt d)) = true.
Proof.
  unfold float_square.
  repeat match goal with
         | |- context [if ?b then _ else _] => destruct b
         end; try reflexivity.
  apply ltb_not_neg, libm_pow2_sign.
Qed.

Lemma rmap_squares (rt : runtime) (mean : float) (x : list float) :
  rmap (fun _x => py_pow2 rt (PrimFloat.sub _x mean)) x
  = if existsb (fun v => square_overflows rt (PrimFloat.sub v mean)) x
    then Raise OverflowError
    else Ok (map (fun v => float_square rt (PrimFloat.sub v mean)) x).
Proof.
  induction x as [|v x IH]; [reflexivity|].
  cbn [rmap existsb map]. rewrite py_pow2_overflow.
  destruct (square_overflows rt (PrimFloat.sub v mean)); [reflexivity|].
  cbn [rbind orb]. rewrite IH.
  destruct (existsb _ x); reflexivity.
Qed.

Lemma variance_not_neg (rt : runtime) (mean : float) (x : list float) (n : Z) :
  sf_not_neg
    (Prim2SF
       (PrimFloat.div
          (py_sum (map (fun v => float_square rt (PrimFloat.sub v mean)) x))
          (float_of_int n))) = true.
Proof.
  rewrite FloatAxioms.div_spec.
  apply sf_div_not_neg; [|apply float_of_int_plus].
  apply sum_not_neg; [reflexivity|].
  apply Forall_forall. intros v Hv.
  apply in_map_iff in Hv as (u & <- & _).
  apply float_square_not_neg.
Qed.

(** The statistics of a non-empty sequence. *)
Lemma mean_and_stddev_nonempty (rt : runtime) (x : list float) :
  x <> [] ->
  mean_and_stddev rt x
  = if stats_overflow rt x then Raise OverflowError
    else Ok (population_stats rt x).
Proof.
  intros Hx. unfold mean_and_stddev, py_truediv_int.
  destruct (Z.eqb_spec (len x) 0) as [H0|_];
    [elim Hx; now apply len_zero_nil|].
  cbv beta iota delta [rbind].
  change (PrimFloat.div (py_sum x) (float_of_int (len x))) with (float_mean x).
  rewrite rmap_squares. unfold stats_overflow.
  destruct (existsb _ x); [reflexivity|].
  unfold math_sqrt. rewrite not_neg_ltb by apply variance_not_neg.
  reflexivity.
Qed.

Lemma mean_and_stddev_ok_or_overflow (rt : runtime) (x : list float) :
  x <> [] ->
  mean_and_stddev rt x = Ok (population_stats rt x)
  \/ mean_and_stddev rt x = Raise OverflowError.
Proof.
  intros Hx. rewrite (mean_and_stddev_nonempty rt x Hx).
  destruct (stats_overflow rt x); auto.
Qed.

Lemma finite_shape (x : float) :
  is_finite x = true ->
  match Prim2SF x with
  | S754_zero _ | S754_finite _ _ _ => True
  | _ => False
  end.
Proof.
  unfold is_finite. intros H. apply negb_true_iff, orb_false_iff in H.
  destruct H as [Hn Hi].
  destruct (Prim2SF x) as [s|s| |s m e] eqn:E; try exact I.
  - apply (f_equal SF2Prim) in E. rewrite SF2Prim_Prim2SF in E. subst x.
    destruct s; discriminate.
  - apply (f_equal SF2Prim) in E. rewrite SF2Prim_Prim2SF in E. subst x.
    discriminate.
Qed.

Lemma sf_eqb_finite (a b : spec_float) :
  SFeqb a b = true ->
  match a, b with
  | S754_zero _, S754_zero _ => True
  | S754_infinity s, S754_infinity s' => s = s'
  | S754_finite _ _ _, S754_finite _ _ _ => a = b
  | _, _ => False
  end.
Proof.
  unfold SFeqb, SFcompare.
  destruct a as [s|s| |s m e], b as [s'|s'| |s' m' e'];
    try destruct s; try destruct s'; try discriminate; try reflexivity;
    destruct (Z.compare_spec e e') as [->| | ]; try discriminate;
    change (Pos.compare_cont Eq m m') with (Pos.compare m m');
    destruct (Pos.compare_spec m m') as [->| | ]; try discriminate;
    reflexivity.
Qed.

Lemma sub_cancel (x m : float) :
  is_finite x = true -> PrimFloat.eqb m x = true ->
  PrimFloat.sub x m = 0%float \/ PrimFloat.sub x m = (-0)%float.
Proof.
  intros Hf He. apply finite_shape in Hf.
  rewrite FloatAxioms.eqb_spec in He. apply sf_eqb_finite in He.
  assert (Hz : exists s, Prim2SF (PrimFloat.sub x m) = S754_zero s).
  { rewrite FloatAxioms.sub_spec. unfold SF64sub.
    destruct (Prim2SF x) as [s|s| |s mx ex], (Prim2SF m) as [s'|s'| |s' mm em];
      try contradiction.
    - destruct s, s'; simpl; eauto.
    - injection He as -> -> ->.
      exists false. unfold SFsub. now rewrite Z.sub_diag. }
  destruct Hz as [s Hs].
  apply (f_equal SF2Prim) in Hs. rewrite SF2Prim_Prim2SF in Hs.
  rewrite Hs. destruct s; auto.
Qed.

Lemma Prim2SF_one : Prim2SF 1%float = S754_finite false 4503599627370496 (-52).
Proof. reflexivity. Qed.

Lemma div_eucl_exact (a b q : Z) :
  0 < b -> a = q * b -> Z.div_eucl a b = (q, 0).
Proof.
  intros Hb ->.
  pose proof (Z.div_mul q b ltac:(lia)) as Hd.
  pose proof (Z.mod_mul q b ltac:(lia)) as Hm.
  unfold Z.div, Z.modulo in *.
  destruct (Z.div_eucl (q * b) b) as [q' r']. now subst.
Qed.

Lemma sf_div_one (s : bool) (m : positive) (e : Z) :
  valid_binary (S754_finite s m e) = true ->
  SF64div (S754_finite s m e) (S754_finite false 4503599627370496 (-52))
  = S754_finite s m e.
Proof.
  unfold valid_binary, SpecFloat.valid_binary, bounded, canonical_mantissa.
  intros H. apply andb_true_iff in H as [Hc Hb].
  apply Z.eqb_eq in Hc. apply Z.leb_le in Hb.
  unfold fexp, SpecFloat.emin, emax, prec in *.
  set (d := Zpos (digits2_pos m)) in *.
  assert (Hd : 0 < d) by (subst d; lia).
  unfold SF64div, SFdiv, SFdiv_core_binary.
  change (Zdigits2 (Zpos m)) with d.
  change (Zdigits2 4503599627370496) with 53.
  unfold fexp, SpecFloat.emin, emax, prec.
  rewrite xorb_false_r.
  destruct (Z_lt_le_dec (-1074) e) as [Hn|Hs].
  - (* normal *)
    assert (d = 53) by lia.
    replace (Z.min (Z.max (d + e - (53 + -52) - 53) (3 - 1024 - 53)) (e - -52))
      with (e - 1) by lia.
    replace (e - -52 - (e - 1)) with 53 by lia.
    rewrite (div_eucl_exact _ _ (Zpos m~0)); [|lia|].
    2:{ rewrite Z.shiftl_mul_pow2 by lia.
        change (2 ^ 53) with 9007199254740992.
        rewrite (Pos2Z.inj_xO m). lia. }
    change (new_location 4503599627370496 0) with loc_Exact.
    unfold binary_round_aux, shr_fexp.
    assert (Hd2 : Zdigits2 (Zpos m~0) = d + 1) by (subst d; simpl; lia).
    rewrite Hd2.
    unfold fexp, SpecFloat.emin.
    replace (Z.max (d + 1 + (e - 1) - 53) (3 - 1024 - 53) - (e - 1)) with 1 by lia.
    cbn [shr_record_of_loc shr iter_pos shr_1 orb shr_m loc_of_shr_record round_nearest_even].
    change (Zdigits2 (Zpos m)) with d.
    replace (Z.max (d + (e - 1 + 1) - 53) (3 - 1024 - 53) - (e - 1 + 1)) with 0 by lia.
    cbn [shr shr_m shr_record_of_loc].
    replace (e - 1 + 1) with e by lia.
    destruct (Z.leb_spec e (1024 - 53)); [reflexivity|lia].
  - (* subnormal *)
    assert (e = -1074) by lia. subst e.
    replace (Z.min (Z.max (d + -1074 - (53 + -52) - 53) (3 - 1024 - 53)) (-1074 - -52))
      with (-1074) by lia.
    change (-1074 - -52 - -1074) with 52.
    rewrite (div_eucl_exact _ _ (Zpos m)); [|lia|].
    2:{ rewrite Z.shiftl_mul_pow2 by lia.
        change (2 ^ 52) with 4503599627370496. lia. }
    change (new_location 4503599627370496 0) with loc_Exact.
    unfold binary_round_aux, shr_fexp.
    change (Zdigits2 (Zpos m)) with d.
    unfold fexp, SpecFloat.emin.
    replace (Z.max (d + -1074 - 53) (3 - 1024 - 53) - -1074) with 0 by lia.
    cbn [shr_record_of_loc shr iter_pos shr_1 orb shr_m loc_of_shr_record round_nearest_even].
    change (Zdigits2 (Zpos m)) with d.
    replace (Z.max (d + -1074 - 53) (3 - 1024 - 53) - -1074) with 0 by lia.
    cbn [shr shr_m shr_record_of_loc].
    reflexivity.
Qed.

Lemma sf_eqb_refl (s : bool) (m : positive) (e : Z) :
  SFeqb (S754_finite s m e) (S754_finite s m e) = true.
Proof.
  unfold SFeqb, SFcompare. rewrite Z.compare_refl.
  change (Pos.compare_cont Eq m m) with (Pos.compare m m).
  rewrite Pos.compare_refl. now destruct s.
Qed.

(** The mean of a single finite sample is the sample. *)
Lemma single_mean (x : float) :
  is_finite x = true -> PrimFloat.eqb (float_mean [x]) x = true.
Proof.
  intros Hf. pose proof (finite_shape x Hf) as Hx.
  pose proof (Prim2SF_valid x) as Hv.
  unfold float_mean, py_sum. change (float_of_int (len [x])) with 1%float.
  cbn [fold_left].
  rewrite FloatAxioms.eqb_spec, FloatAxioms.div_spec, FloatAxioms.add_spec.
  rewrite Prim2SF_one, Prim2SF_zero.
  destruct (Prim2SF x) as [s|s| |s m e]; try contradiction.
  - now destruct s.
  - change (SF64add (S754_zero false) (S754_finite s m e))
      with (S754_finite s m e).
    rewrite (sf_div_one s m e Hv). apply sf_eqb_refl.
Qed.

Lemma same_samples_stats (rt : runtime) (x : float) (xs : list float) :
  xs = [x] \/ xs = [x; x; x] ->
  is_finite x = true ->
  PrimFloat.eqb (float_mean xs) x = true ->
  exists r, mean_and_stddev rt xs = Ok r /\ stats_eq r x 0 = true.
Proof.
  intros Hxs Hf Hm.
  pose proof (sub_cancel x (float_mean xs) Hf Hm) as Hs.
  unfold mean_and_stddev, py_truediv_int, float_mean in *.
  destruct Hxs as [-> | ->];
    [ change (len [x]) with 1 in *; change (1 =? 0) with false
    | change (len [x; x; x]) with 3 in *; change (3 =? 0) with false ];
    cbv beta iota delta [rbind rmap];
    (destruct Hs as [Hs|Hs]; rewrite Hs;
     (eexists; split; [reflexivity|]);
     unfold stats_eq; simpl fst; simpl snd; rewrite Hm; reflexivity).
Qed.

(** C4 (as stated) fails on every platform: the mean of three samples
    equal to one tenth is not one tenth. *)
Lemma three_tenths_are_not_exact :
  ~ (exists rt, forall x, is_finite x = true ->
       exists r, mean_and_stddev rt [x; x; x] = Ok r /\ stats_eq r x 0 = true).
Proof.
  intros [rt H]. destruct (H tenth eq_refl) as (r & Hr & He).
  rewrite mean_and_stddev_nonempty in Hr by discriminate.
  destruct (stats_overflow rt _); [discriminate|]. injection Hr as <-.
  apply andb_true_iff in He as [He _].
  vm_compute in He. discriminate.
Qed.

Example three_tenths :
  mean_and_stddev no_xx [tenth; tenth; tenth]
  = Ok (0x1.999999999999bp-4%float, 0x1p-56%float).
Proof. vm_compute. reflexivity. Qed.

Example single_infinite_sample :
  mean_and_stddev no_xx [infinity] = Ok (infinity, nan).
Proof. vm_compute. reflexivity. Qed.

Example squared_deviation_overflow :
  mean_and_stddev no_xx [0%float; 0x1p+600%float] = Raise OverflowError.
Proof. vm_compute. reflexivity. Qed.

(** The last bit of the standard deviation is that of the platform's
    [pow]: for the samples [0.05] and [0.8] a correctly rounded square
    gives [0.37500000000000006], a square one unit in the last place
    below gives [0.375]. *)
Example last_bit_of_the_square :
  mean_and_stddev no_xx [0x1.999999999999ap-5%float; 0x1.999999999999ap-1%float]
  = Ok (0x1.b333333333334p-2%float, 0x1.8000000000001p-2%float)
  /\ mean_and_stddev one_low
       [0x1.999999999999ap-5%float; 0x1.999999999999ap-1%float]
     = Ok (0x1.b333333333334p-2%float, 0x1.8p-2%float).
Proof. split; vm_compute; reflexivity. Qed.

Lemma ten_and_zero (rt : runtime) :
  libm_pow2 rt 5 = 25%float ->
  mean_and_stddev rt [0%float; 10%float] = Ok (5%float, 5%float).
Proof.
  intros H. rewrite mean_and_stddev_nonempty by discriminate.
  unfold stats_overflow, population_stats.
  change (float_mean [0%float; 10%float]) with 5%float.
  cbn [existsb map].
  change (PrimFloat.sub 0 5) with (-5)%float.
  change (PrimFloat.sub 10 5) with 5%float.
  assert (Hsq : float_square rt 5 = 25%float
                /\ float_square rt (-5) = 25%float
                /\ square_overflows rt 5 = false
                /\ square_overflows rt (-5) = false).
  { unfold float_square, square_overflows.
    change (PrimFloat.abs (-5)) with 5%float.
    change (PrimFloat.abs 5) with 5%float.
    rewrite H. repeat split; reflexivity. }
  destruct Hsq as (-> & -> & -> & ->). reflexivity.
Qed.

(** C4 (amended): on a non-empty sequence [mean_and_stddev] returns the
    mean and the population standard deviation as the float arithmetic
    of the platform gives them (both sums divided by the count [N], not
    [N-1]; each squared deviation is [(x_i - mean) ** 2]), and raises
    [OverflowError] exactly when a squared deviation overflows;
    [mean_and_stddev([0, 10])] is [(5, 5)] where the platform's
    [pow(5.0, 2.0)] is [25.0]; [mean_and_stddev([x])] is [(x, 0)] for
    every finite [x]; [mean_and_stddev([x, x, x])] is [(x, 0)] for the
    finite [x] whose computed mean equals [x]. *)
Theorem mean_and_stddev_population (rt : runtime) :
  (forall x, x <> [] ->
     mean_and_stddev rt x
     = if stats_overflow rt x then Raise OverflowError
       else Ok (population_stats rt x))
  /\ (forall d,
        py_pow2 rt d
        = if square_overflows rt d then Raise OverflowError
          else Ok (float_square rt d))
  /\ (libm_pow2 rt 5 = 25%float ->
      mean_and_stddev rt [0%float; 10%float] = Ok (5%float, 5%float))
  /\ (forall x, is_finite x = true ->
        exists r, mean_and_stddev rt [x] = Ok r /\ stats_eq r x 0 = true)
  /\ (forall x, is_finite x = true ->
        PrimFloat.eqb (float_mean [x; x; x]) x = true ->
        exists r, mean_and_stddev rt [x; x; x] = Ok r /\ stats_eq r x 0 = true).
Proof.
  split; [apply mean_and_stddev_nonempty|].
  split; [apply py_pow2_overflow|].
  split; [apply ten_and_zero|].
  split; intros x Hf.
  - apply same_samples_stats; auto using single_mean.
  - apply same_samples_stats; auto.
Qed.

Lemma mean_and_stddev_population_samples :
  mean_and_stddev no_xx [1%float; 2%float; 4%float]
  = Ok (population_stats no_xx [1%float; 2%float; 4%float])
  /\ mean_and_stddev one_low
       [0x1.999999999999ap-5%float; 0x1.999999999999ap-1%float]
     = Ok (population_stats one_low
             [0x1.999999999999ap-5%float; 0x1.999999999999ap-1%float])
  /\ mean_and_stddev no_xx [0%float; 10%float] = Ok (5%float, 5%float)
  /\ (exists r, mean_and_stddev no_xx [tenth] = Ok r
                /\ stats_eq r tenth 0 = true)
  /\ (exists r, mean_and_stddev no_xx [3%float; 3%float; 3%float] = Ok r
                /\ stats_eq r 3 0 = true).
Proof.
  destruct (mean_and_stddev_population no_xx)
    as (Hpop & _ & Hten & Hone & Hthree).
  destruct (mean_and_stddev_population one_low) as (Hlow & _).
  split; [exact (Hpop [1%float; 2%float; 4%float] ltac:(discriminate))|].
  split; [exact (Hlow [0x1.999999999999ap-5%float; 0x1.999999999999ap-1%float]
                   ltac:(discriminate))|].
  split; [apply Hten; reflexivity|].
  split; [apply Hone|apply Hthree]; reflexivity.
Defined.

(* ================================================================= *)
(** ** The consistency check *)

Lemma speeds_ok (size_mb : float) (res : list task_result) :
  Forall (fun x => PrimFloat.eqb (snd x) 0 = false) res ->
  rmap (fun t => py_truediv size_mb t) (map (fun x => snd x) res)
  = Ok (speeds_of size_mb res).
Proof.
  induction 1 as [|x res Hx _ IH]; [reflexivity|].
  cbn [map rmap speeds_of]. unfold py_truediv at 1. rewrite Hx.
  cbn [rbind]. fold (speeds_of size_mb res). rewrite IH. reflexivity.
Qed.

(** The statements after [pool.map] when there is a result, no elapsed
    time is zero and the checksums agree: the row is computed unless a
    squared deviation overflows in the statistics. *)
Lemma summarize_agreed (rt : runtime) (variant : string) (bufsize : Z)
    (size_mb t0 : float) (res : list task_result) :
  res <> [] ->
  Forall (fun x => PrimFloat.eqb (snd x) 0 = false) res ->
  all_equal (map (fun x => fst (fst x)) res) = true ->
  if statistics_overflow rt size_mb t0 res
  then summarize rt variant bufsize size_mb t0 res = Raise OverflowError
  else exists args, summarize rt variant bufsize size_mb t0 res = Ok args.
Proof.
  intros Hne Hnz Heq. unfold summarize, statistics_overflow.
  rewrite (speeds_ok size_mb res Hnz). cbv beta iota delta [rbind].
  rewrite Heq. cbv beta iota delta [negb].
  destruct res as [|r res]; [congruence|].
  change (py_first (map (fun x => fst (fst x)) (r :: res)))
    with (Ok (fst (fst r))).
  cbv beta iota.
  rewrite (mean_and_stddev_nonempty rt (map (fun x => snd x) (r :: res)))
    by discriminate.
  destruct (stats_overflow rt (map (fun x => snd x) (r :: res)));
    cbn [orb]; [reflexivity|].
  rewrite (mean_and_stddev_nonempty rt
             (map (fun x => PrimFloat.sub (snd (fst x)) t0) (r :: res)))
    by discriminate.
  destruct (stats_overflow rt
              (map (fun x => PrimFloat.sub (snd (fst x)) t0) (r :: res)));
    cbn [orb]; [reflexivity|].
  rewrite (mean_and_stddev_nonempty rt (speeds_of size_mb (r :: res)))
    by discriminate.
  destruct (stats_overflow rt (speeds_of size_mb (r :: res)));
    [reflexivity|].
  eexists. reflexivity.
Qed.

Lemma summarize_ok_or_overflow (rt : runtime) (variant : string) (bufsize : Z)
    (size_mb t0 : float) (res : list task_result) :
  res <> [] ->
  Forall (fun x => PrimFloat.eqb (snd x) 0 = false) res ->
  all_equal (map (fun x => fst (fst x)) res) = true ->
  (exists args, summarize rt variant bufsize size_mb t0 res = Ok args)
  \/ summarize rt variant bufsize size_mb t0 res = Raise OverflowError.
Proof.
  intros Hne Hnz Heq.
  pose proof (summarize_agreed rt variant bufsize size_mb t0 res Hne Hnz Heq)
    as H.
  destruct (statistics_overflow rt size_mb t0 res); auto.
Qed.

(** C3 (as stated) fails: checksums that are all equal do not make the
    sweep go on to the next combination.  Two serial tasks under a
    clock that stands still return the same checksum, and the loop
    stops with [ZeroDivisionError]. *)
Lemma equal_checksums_do_not_continue :
  ~ (forall rt opts p data size_mb variant l w w2 indices res,
       py_range 0 (number_tasks opts) 1 = Ok indices ->
       pool_map p (_get_checksum_function rt opts data (bufsize_of l) variant)
         indices (advance 1 w) = (Ok res, w2) ->
       (forall a b, In a (map (fun x => fst (fst x)) res) ->
                    In b (map (fun x => fst (fst x)) res) -> a = b) ->
       exists w3,
         benchmark_one rt opts p data size_mb (variant, l) w = (Ok tt, w3)).
Proof.
  intros H.
  destruct (H no_xx two_tasks _serial_pool check_bytes 1%float "crc32" 9
              w_still (advance 5 w_still) [0; 1]
              [(0xCBF43926, 1%float, 0%float); (0xCBF43926, 1%float, 0%float)]
              eq_refl) as [w3 Hw3].
  - vm_compute. reflexivity.
  - simpl. intros a b [<-|[<-|[]]] [<-|[<-|[]]]; reflexivity.
  - vm_compute in Hw3. discriminate.
Qed.

(** C3 (amended): when the checksums collected for a combination are
    not all equal the loop stops with an exception: nothing is printed
    for the combination and none of the remaining combinations is run;
    the exception is [ZeroDivisionError] when an elapsed time is zero
    (the throughputs are computed before the check) and the one of the
    consistency check otherwise.  When they are all equal the
    consistency check raises nothing, but the loop goes on with the
    next combination only when the row can be computed: it stops with
    [ZeroDivisionError] when an elapsed time is zero, with [IndexError]
    when there is no result, with [OverflowError] when a squared
    deviation overflows in the statistics, and prints the row and goes
    on in every other case. *)
Theorem consistency_check_is_fatal (rt : runtime) (opts : options) (p : pool)
    (data : bytes) (size_mb : float) (variant : string) (l : Z)
    (rest : list (string * Z)) (w w2 : world) (indices : list Z)
    (res : list task_result) :
  py_range 0 (number_tasks opts) 1 = Ok indices ->
  pool_map p (_get_checksum_function rt opts data (bufsize_of l) variant)
    indices (advance 1 w) = (Ok res, w2) ->
  let crcs := map (fun x => fst (fst x)) res in
  let body := benchmark_one rt opts p data size_mb in
  let loop := for_each ((variant, l) :: rest) body w in
  let zero_elapsed := Exists (fun x => PrimFloat.eqb (snd x) 0 = true) res in
  let no_zero_elapsed :=
    Forall (fun x => PrimFloat.eqb (snd x) 0 = false) res in
  ((exists a b, In a crcs /\ In b crcs /\ a <> b) ->
     (exists e, loop = (Raise e, w2))
     /\ (zero_elapsed -> loop = (Raise ZeroDivisionError, w2))
     /\ (no_zero_elapsed -> loop = (Raise (Exception variant crcs), w2)))
  /\ ((forall a b, In a crcs -> In b crcs -> a = b) ->
        (forall e w3, body (variant, l) w = (Raise e, w3) ->
                      is_mismatch e = false)
        /\ (zero_elapsed -> loop = (Raise ZeroDivisionError, w2))
        /\ (res = [] -> loop = (Raise IndexError, w2))
        /\ (res <> [] -> no_zero_elapsed ->
            if statistics_overflow rt size_mb (clock w (ticks w)) res
            then loop = (Raise OverflowError, w2)
            else exists args,
                   summarize rt variant (bufsize_of l) size_mb
                     (clock w (ticks w)) res = Ok args
                   /\ loop = for_each rest body (emit [OutRow args] w2))).
Proof.
  intros Hr Hm crcs body loop zero_elapsed no_zero_elapsed.
  pose proof (benchmark_one_after_map rt opts p data size_mb variant l w w2
                indices res Hr Hm) as Hone.
  fold body in Hone.
  assert (Hzero : zero_elapsed -> loop = (Raise ZeroDivisionError, w2)).
  { intros Hz. apply for_each_raise. rewrite Hone.
    now rewrite summarize_zero_elapsed. }
  split.
  - intros Hne. apply all_equal_false_iff in Hne.
    assert (Hnz : no_zero_elapsed ->
                  loop = (Raise (Exception variant crcs), w2)).
    { intros Hnz. apply for_each_raise. rewrite Hone.
      now rewrite summarize_mismatch. }
    split; [|split; assumption].
    destruct (elapsed_cases res) as [Hz|Hz].
    + exists ZeroDivisionError. apply Hzero.
      apply Exists_exists in Hz as (t & Ht & Hz).
      apply in_map_iff in Ht as (x & <- & Hx).
      apply Exists_exists. eauto.
    + eexists. apply Hnz.
      apply Forall_forall. intros x Hx.
      rewrite Forall_forall in Hz. apply Hz.
      apply in_map_iff. eauto.
  - intros Heq. apply all_equal_iff in Heq.
    split; [|split; [exact Hzero|split]].
    + intros e w3. rewrite Hone.
      destruct (summarize _ _ _ _ _ _) eqn:Es; [discriminate|].
      intros [= <- _]. eapply summarize_consistent; eassumption.
    + intros ->. apply for_each_raise. rewrite Hone. reflexivity.
    + intros Hne Hnz.
      pose proof (summarize_agreed rt variant (bufsize_of l) size_mb
                    (clock w (ticks w)) res Hne Hnz Heq) as Hs.
      destruct (statistics_overflow rt size_mb (clock w (ticks w)) res).
      * apply for_each_raise. rewrite Hone, Hs. reflexivity.
      * destruct Hs as [args Hs]. exists args. split; [exact Hs|].
        apply for_each_continue. rewrite Hone, Hs. reflexivity.
Qed.

Lemma consistency_check_is_fatal_sample :
  for_each (("crc32", 9) :: [("crc32", 10)])
    (benchmark_one no_xx two_tasks disagreeing_pool check_bytes 1%float) w0
  = (Raise (Exception "crc32" [1; 2]), advance 1 w0)
  /\ (exists args,
        summarize no_xx "crc32" (bufsize_of 9) 1%float (clock w0 (ticks w0))
          [(0xCBF43926, 1%float, 1%float); (0xCBF43926, 3%float, 1%float)]
        = Ok args
        /\ for_each (("crc32", 9) :: [("crc32", 10)])
             (benchmark_one no_xx two_tasks _serial_pool check_bytes 1%float) w0
           = for_each [("crc32", 10)]
               (benchmark_one no_xx two_tasks _serial_pool check_bytes 1%float)
               (emit [OutRow args] (advance 5 w0)))
  /\ for_each (("crc32", 9) :: [("crc32", 10)])
       (benchmark_one no_xx two_tasks _serial_pool check_bytes 1%float) w_still
     = (Raise ZeroDivisionError, advance 5 w_still).
Proof.
  split; [|split].
  - refine (proj2 (proj2 (proj1 (consistency_check_is_fatal no_xx two_tasks
                            disagreeing_pool check_bytes 1%float "crc32" 9
                            [("crc32", 10)] w0 (advance 1 w0) [0; 1]
                            [(1, 0%float, 1%float); (2, 0%float, 1%float)]
                            eq_refl eq_refl) _)) _).
    + exists 1, 2. simpl. repeat split; auto. lia.
    + repeat constructor.
  - refine (proj2 (proj2 (proj2 (proj2 (consistency_check_is_fatal no_xx
                            two_tasks _serial_pool check_bytes 1%float "crc32"
                            9 [("crc32", 10)] w0 (advance 5 w0) [0; 1]
                            [(0xCBF43926, 1%float, 1%float);
                             (0xCBF43926, 3%float, 1%float)]
                            eq_refl _) _))) _ _).
    + vm_compute. reflexivity.
    + simpl. intros a b [<-|[<-|[]]] [<-|[<-|[]]]; reflexivity.
    + discriminate.
    + repeat constructor.
  - refine (proj1 (proj2 (proj2 (consistency_check_is_fatal no_xx
                            two_tasks _serial_pool check_bytes 1%float "crc32"
                            9 [("crc32", 10)] w_still (advance 5 w_still)
                            [0; 1]
                            [(0xCBF43926, 1%float, 0%float);
                             (0xCBF43926, 1%float, 0%float)]
                            eq_refl _) _)) _).
    + vm_compute. reflexivity.
    + simpl. intros a b [<-|[<-|[]]] [<-|[<-|[]]]; reflexivity.
    + left. reflexivity.
Defined.

(* ================================================================= *)
(** ** Chunk sizes at the edges *)

Lemma range_len_ceiling (n C : Z) :
  0 <= n -> 0 < C -> range_len 0 n C = (n + C - 1) / C.
Proof.
  intros Hn HC. unfold range_len.
  destruct (Z.ltb_spec 0 C); [|lia].
  destruct (Z.ltb_spec 0 n).
  - replace (n + C - 1) with (n - 1 - 0 + 1 * C) by lia.
    rewrite Z.div_add by lia. lia.
  - replace n with 0 by lia. simpl. symmetry. apply Z.div_small. lia.
Qed.

(** X1: for a chunk size [C > 0] the buffer is cut into
    [ceil(len / C)] blocks; a non-empty buffer of at most [C] bytes is
    a single block, the buffer itself, and an empty buffer gives no
    block. *)
Theorem chunker_block_count {A} (data : list A) (C : Z) :
  0 < C ->
  exists blocks,
    chunker data C = Ok blocks
    /\ len blocks = (len data + C - 1) / C
    /\ (data <> [] -> len data <= C -> blocks = [data])
    /\ (data = [] -> blocks = []).
Proof.
  intros HC.
  exists (blocks_at data (Z.to_nat C) (Z.to_nat (range_len 0 (len data) C))).
  split; [now apply chunker_blocks_at|].
  assert (Hlen : 0 <= len data) by (unfold len; lia).
  pose proof (range_len_bounds (len data) C Hlen HC) as [Hk Hb].
  split; [|split].
  - unfold len at 1. rewrite length_blocks_at, Z2Nat.id by assumption.
    now apply range_len_ceiling.
  - intros Hne Hle.
    assert (Hone : range_len 0 (len data) C = 1).
    { assert (0 < len data)
        by (unfold len; destruct data; [congruence|simpl; lia]).
      nia. }
    rewrite Hone. unfold blocks_at. simpl.
    rewrite firstn_all2; [reflexivity|]. unfold len in Hle. lia.
  - intros ->. apply blocks_at_nil.
Qed.

Lemma chunker_block_count_sample :
  exists blocks,
    chunker check_bytes 4 = Ok blocks
    /\ len blocks = (len check_bytes + 4 - 1) / 4
    /\ (check_bytes <> [] -> len check_bytes <= 4 -> blocks = [check_bytes])
    /\ (check_bytes = [] -> blocks = []).
Proof. apply (chunker_block_count check_bytes 4). lia. Defined.

(** X2: [get_checksum] does not accept the sentinel: with a chunk size
    of zero it raises [ValueError]; with a negative chunk size it reads
    no byte of the buffer and returns the checksum of the empty input.
    [checksum_data] never raises for a registered algorithm, whatever
    the chunk size. *)
Theorem chunk_size_edge_cases (rt : runtime) (variant : string)
    (ci : checksum_info) (data : bytes) (w : world) :
  py_getitem (checksums rt) variant = Ok ci ->
  get_checksum rt 0 data variant
  = Raise (ValueError "range() arg 3 must not be zero")
  /\ (forall C, C < 0 ->
        get_checksum rt C data variant = Ok (final ci (init ci tt)))
  /\ (forall C, exists crc,
        checksum_data rt data C variant w
        = (Ok (crc, clock w (ticks w),
               PrimFloat.sub (clock w (S (ticks w))) (clock w (ticks w))),
           advance 2 w)).
Proof.
  intros Hci.
  assert (Hneg : forall C, C < 0 ->
            get_checksum rt C data variant = Ok (final ci (init ci tt))).
  { intros C HC. unfold get_checksum. rewrite Hci.
    cbv beta iota delta [rbind]. unfold py_range.
    destruct (Z.eqb_spec C 0); [lia|].
    unfold range_len. destruct (Z.ltb_spec 0 C); [lia|].
    destruct (Z.ltb_spec (len data) 0); [unfold len in *; lia|].
    reflexivity. }
  split; [|split; [exact Hneg|]].
  - unfold get_checksum. rewrite Hci. reflexivity.
  - intros C. destruct (Z_lt_le_dec C 0) as [HC|HC].
    + eexists. unfold checksum_data.
      destruct (Z.eqb_spec C 0); [lia|].
      cbv beta iota delta [bind time_time lift ret].
      rewrite (Hneg C HC). reflexivity.
    + eexists. now apply (checksum_data_reference rt variant ci).
Qed.

Lemma chunk_size_edge_cases_adler32 :
  get_checksum no_xx 0 check_bytes "adler32"
  = Raise (ValueError "range() arg 3 must not be zero")
  /\ (forall C, C < 0 ->
        get_checksum no_xx C check_bytes "adler32" = Ok (Z.land 0 0xffffffff))
  /\ (forall C, exists crc,
        checksum_data no_xx check_bytes C "adler32" w0
        = (Ok (crc, clock w0 (ticks w0),
               PrimFloat.sub (clock w0 (S (ticks w0))) (clock w0 (ticks w0))),
           advance 2 w0)).
Proof.
  exact (chunk_size_edge_cases no_xx "adler32" _ check_bytes w0 eq_refl).
Defined.

(* ================================================================= *)
(** ** The checksum is a 32-bit number *)

Lemma in32_range (c : Z) : in32 c -> 0 <= c < 2 ^ 32.
Proof.
  unfold in32. rewrite mask32_ones, Z.land_ones by lia. intros <-.
  apply Z.mod_pos_bound. lia.
Qed.

Lemma registry_final_in32 (rt : runtime) :
  Forall (fun item => forall s, in32 (final (snd item) s)) (checksums rt).
Proof.
  unfold checksums.
  apply Forall_app; split; [|apply Forall_app; split].
  - repeat (apply Forall_cons; [intros s; apply in32_land|]). apply Forall_nil.
  - destruct (crc32c rt); [|apply Forall_nil].
    apply Forall_cons; [intros s; apply in32_land|apply Forall_nil].
  - destruct (xxhash rt) as [intdigest|]; [|apply Forall_nil].
    apply Forall_cons; [intros s; apply in32_land|apply Forall_nil].
Qed.

Lemma registered_final_in32 (rt : runtime) (variant : string)
    (ci : checksum_info) (s : State ci) :
  py_getitem (checksums rt) variant = Ok ci -> in32 (final ci s).
Proof.
  intros H. apply py_getitem_In in H.
  pose proof (registry_final_in32 rt) as HF.
  rewrite Forall_forall in HF. apply (HF _ H).
Qed.

(** X3: whatever the algorithm, the buffer and the chunk size, a
    checksum returned by [get_checksum] or by [checksum_data] lies in
    [0, 2^32). *)
Theorem checksum_is_uint32 (rt : runtime) (data : bytes) (bufsize : Z)
    (variant : string) :
  (forall crc, get_checksum rt bufsize data variant = Ok crc ->
               0 <= crc < 2 ^ 32)
  /\ (forall w r w', checksum_data rt data bufsize variant w = (Ok r, w') ->
                     0 <= fst (fst r) < 2 ^ 32).
Proof.
  assert (Hg : forall b crc, get_checksum rt b data variant = Ok crc ->
                             0 <= crc < 2 ^ 32).
  { intros b crc. unfold get_checksum.
    destruct (py_getitem (checksums rt) variant) as [ci|] eqn:Hci;
      [|discriminate].
    cbv beta iota delta [rbind].
    destruct (py_range 0 (len data) b); [|discriminate].
    intros [= <-]. apply in32_range.
    now apply (registered_final_in32 rt variant). }
  split; [apply Hg|].
  intros w r w'. unfold checksum_data.
  destruct (bufsize =? 0); cbv beta iota delta [bind time_time lift ret].
  - destruct (py_getitem (checksums rt) variant) as [ci|] eqn:Hci;
      [|discriminate].
    intros [= <- _]. apply in32_range.
    now apply (registered_final_in32 rt variant).
  - destruct (get_checksum rt bufsize data variant) as [crc|] eqn:Hc;
      [|discriminate].
    intros [= <- _]. now apply (Hg bufsize).
Qed.

Lemma checksum_is_uint32_sample :
  0 <= 0xCBF43926 < 2 ^ 32.
Proof.
  exact (proj1 (checksum_is_uint32 no_xx check_bytes 4 "crc32") 0xCBF43926
           eq_refl).
Defined.

(* ================================================================= *)
(** ** The standard deviation is never negative *)

Lemma sf_sqrt_not_neg (x : spec_float) :
  sf_not_neg x = true -> sf_not_neg (SF64sqrt x) = true.
Proof.
  destruct x as [s|s| |s m e]; try destruct s; try discriminate;
    try reflexivity.
  intros _. cbv beta iota delta [SF64sqrt SFsqrt].
  destruct (SFsqrt_core_binary _ _ _ _) as [[mz ez] lz].
  apply sf_plus_not_neg, round_aux_plus.
Qed.

(** X4: when [mean_and_stddev] returns, the sequence was not empty and
    the standard deviation is not below zero; the only exceptions it
    raises are [ZeroDivisionError], on the empty sequence, and
    [OverflowError]: the square root is never taken of a negative
    number. *)
Theorem stddev_is_not_negative (rt : runtime) (x : list float) :
  (forall r, mean_and_stddev rt x = Ok r ->
             x <> [] /\ PrimFloat.ltb (snd r) 0 = false)
  /\ (forall e, mean_and_stddev rt x = Raise e ->
                (e = ZeroDivisionError /\ x = [])
                \/ (e = OverflowError /\ x <> [])).
Proof.
  destruct x as [|v x].
  - split; [discriminate|]. intros e [= <-]. now left.
  - destruct (mean_and_stddev_ok_or_overflow rt (v :: x)) as [H|H];
      [discriminate| |]; rewrite H; split; try discriminate.
    + intros r [= <-]. split; [discriminate|].
      apply not_neg_ltb. unfold population_stats.
      cbv beta iota zeta delta [snd].
      rewrite FloatAxioms.sqrt_spec. apply sf_sqrt_not_neg.
      exact (variance_not_neg rt (float_mean (v :: x)) (v :: x)
               (len (v :: x))).
    + intros e [= <-]. right. split; [reflexivity|discriminate].
Qed.

(* ================================================================= *)
(** ** The timeline of the tasks *)

Lemma serial_timeline_S (crc : Z) (w : world) (n : nat) :
  serial_timeline crc w (S n)
  = (crc, clock w (ticks w),
     PrimFloat.sub (clock w (S (ticks w))) (clock w (ticks w)))
    :: serial_timeline crc (advance 2 w) n.
Proof.
  unfold serial_timeline. simpl seq. simpl map. f_equal.
  - repeat f_equal; lia.
  - rewrite <- seq_shift, map_map. apply map_ext. intros k. simpl.
    repeat f_equal; lia.
Qed.

Section Timeline.
Variable f : Z -> M task_result.
Variable crc : Z.
Variable inv : world -> Prop.
Hypothesis inv_advance : forall n w, inv w -> inv (advance n w).
Hypothesis f_task :
  forall i w, inv w ->
    f i w = (Ok (crc, clock w (ticks w),
                 PrimFloat.sub (clock w (S (ticks w))) (clock w (ticks w))),
             advance 2 w).

Lemma map_M_timeline (xs : list Z) (w : world) :
  inv w ->
  map_M f xs w
  = (Ok (serial_timeline crc w (length xs)), advance (2 * length xs) w).
Proof.
  revert w. induction xs as [|x xs IH]; intros w Hw.
  - simpl. unfold ret. now rewrite advance_0.
  - simpl map_M. cbv beta iota delta [bind ret].
    rewrite (f_task x w Hw), (IH _ (inv_advance 2 w Hw)).
    cbn [length]. rewrite advance_advance, serial_timeline_S.
    do 2 f_equal. lia.
Qed.
End Timeline.

Lemma py_range_length (n : Z) (indices : list Z) :
  py_range 0 n 1 = Ok indices -> length indices = Z.to_nat n.
Proof.
  destruct (py_range_count n) as (indices' & Hr & Hl).
  rewrite Hr. intros [= <-]. unfold len in Hl. lia.
Qed.

(** The tasks of a combination see the buffer [data], either handed
    to them or through the worker global. *)
Lemma combination_timeline (rt : runtime) (opts : options)
    (data data' : bytes) (C : Z) (variant : string) (ci : checksum_info)
    (w : world) :
  (processes opts = true -> _shmem_val w = Some data) ->
  (processes opts = false -> data' = data) ->
  py_getitem (checksums rt) variant = Ok ci ->
  0 <= C ->
  run_combination rt opts _serial_pool data' C variant w
  = (Ok (serial_timeline (reference_checksum ci data) w
           (Z.to_nat (number_tasks opts))),
     advance (2 * Z.to_nat (number_tasks opts)) w).
Proof.
  intros Hshared Hlocal Hci HC. unfold run_combination, _get_checksum_function.
  destruct (py_range_count (number_tasks opts)) as (indices & Hr & _).
  cbv beta iota delta [bind lift]. rewrite Hr.
  rewrite <- (py_range_length _ _ Hr). simpl pool_map.
  destruct (processes opts).
  - apply (map_M_timeline _ _ (fun w => _shmem_val w = Some data)); auto.
    intros i w1 Hw1. unfold _checksum_data_shmem_proc.
    cbv beta iota delta [bind get_shmem_val]. rewrite Hw1.
    apply (checksum_data_reference rt variant ci data C w1 Hci HC).
  - rewrite (Hlocal eq_refl).
    destruct (processes_copy opts);
      apply (map_M_timeline _ _ (fun _ => True)); auto; intros i w1 _;
      apply (checksum_data_reference rt variant ci data C w1 Hci HC).
Qed.

(** X5: mapped by the serial pool, the tasks of a combination run back
    to back: all return the checksum of the whole buffer, task [k]
    starts at the reading [2k] of the clock counted from the first task
    and stops at the next reading, and the clock is read [2N] times in
    all. *)
Theorem serial_results_timeline (rt : runtime) (opts : options)
    (data : bytes) (C : Z) (variant : string) (ci : checksum_info)
    (w : world) :
  processes opts = false ->
  py_getitem (checksums rt) variant = Ok ci ->
  0 <= C ->
  run_combination rt opts _serial_pool data C variant w
  = (Ok (serial_timeline (reference_checksum ci data) w
           (Z.to_nat (number_tasks opts))),
     advance (2 * Z.to_nat (number_tasks opts)) w).
Proof.
  intros Hp Hci HC.
  apply (combination_timeline rt opts data data C variant ci w); auto.
  rewrite Hp. discriminate.
Qed.

Lemma serial_results_timeline_two_tasks :
  run_combination no_xx two_tasks _serial_pool check_bytes 4 "crc32" w0
  = (Ok [ (0xCBF43926, 0%float, 1%float); (0xCBF43926, 2%float, 1%float) ],
     advance 4 w0).
Proof.
  exact (serial_results_timeline no_xx two_tasks check_bytes 4 "crc32" _ w0
           eq_refl eq_refl ltac:(lia)).
Defined.

(* ================================================================= *)
(** ** Shared and copied buffers *)

Section KeepsGlobal.
Lemma global_ret {A} (a : A) : keeps_global (ret a).
Proof. intros w r w' [= <- <-]. reflexivity. Qed.

Lemma global_lift {A} (x : result A) : keeps_global (lift x).
Proof. intros w r w' [= <- <-]. reflexivity. Qed.

Lemma global_time : keeps_global time_time.
Proof. intros w r w' [= <- <-]. reflexivity. Qed.

Lemma global_print (e : out_event) : keeps_global (print e).
Proof. intros w r w' [= <- <-]. reflexivity. Qed.

Lemma global_bind {A B} (c : M A) (k : A -> M B) :
  keeps_global c -> (forall a, keeps_global (k a)) -> keeps_global (bind c k).
Proof.
  intros Hc Hk w r w'. unfold bind.
  destruct (c w) as [[a|e] w1] eqn:Ec.
  - intros H. rewrite (Hk a _ _ _ H). apply (Hc _ _ _ Ec).
  - intros [= <- <-]. apply (Hc _ _ _ Ec).
Qed.
End KeepsGlobal.

Lemma global_checksum_data (rt : runtime) (data : bytes) (bufsize : Z)
    (variant : string) :
  keeps_global (checksum_data rt data bufsize variant).
Proof.
  unfold checksum_data.
  destruct (bufsize =? 0);
    repeat first
      [ apply global_ret | apply global_lift | apply global_time
      | apply global_bind; [|intro] ].
Qed.

Lemma map_M_agree {A B} (f g : A -> M B) (inv : world -> Prop) :
  (forall x w, inv w -> f x w = g x w) ->
  (forall x w r w', inv w -> g x w = (r, w') -> inv w') ->
  forall xs w, inv w -> map_M f xs w = map_M g xs w.
Proof.
  intros Hfg Hinv xs. induction xs as [|x xs IH]; intros w Hw;
    [reflexivity|].
  simpl map_M. unfold bind. rewrite (Hfg x w Hw).
  destruct (g x w) as [[r|e] w1] eqn:E; [|reflexivity].
  rewrite (IH w1) by (eapply Hinv; eassumption). reflexivity.
Qed.

(** X6: once [set_shmem_val] has stored a buffer in the worker global,
    the tasks that read the global and the tasks that are handed a copy
    of the same buffer are interchangeable: mapped over any task
    indices they return the same results, or fail with the same
    exception, and leave the same world. *)
Theorem shared_tasks_equal_copied_tasks (rt : runtime) (data : bytes)
    (bufsize : Z) (variant : string) (indices : list Z) (w : world) :
  _shmem_val w = Some data ->
  map_M (_checksum_data_shmem_proc rt bufsize variant) indices w
  = map_M (_checksum_data_proc rt data bufsize variant) indices w.
Proof.
  apply (map_M_agree _ _ (fun w => _shmem_val w = Some data)).
  - intros i w1 Hw1.
    unfold _checksum_data_shmem_proc, _checksum_data_proc.
    cbv beta iota delta [bind get_shmem_val]. now rewrite Hw1.
  - intros i w1 r w2 Hw1 E. unfold _checksum_data_proc in E.
    rewrite (global_checksum_data rt data bufsize variant _ _ _ E).
    exact Hw1.
Qed.

Lemma shared_tasks_equal_copied_tasks_sample :
  map_M (_checksum_data_shmem_proc no_xx 4 "crc32") [0; 1; 2]
    (snd (set_shmem_val check_bytes w0))
  = map_M (_checksum_data_proc no_xx check_bytes 4 "crc32") [0; 1; 2]
      (snd (set_shmem_val check_bytes w0)).
Proof.
  apply shared_tasks_equal_copied_tasks. reflexivity.
Defined.

(* ================================================================= *)
(** ** Whole runs of the driver *)

Lemma emit_nil (w : world) : emit [] w = w.
Proof. destruct w. unfold emit; simpl. now rewrite app_nil_r. Qed.

Lemma emit_emit (a b : list out_event) (w : world) :
  emit b (emit a w) = emit (a ++ b) w.
Proof. unfold emit; simpl. now rewrite app_assoc. Qed.

Lemma bind_print {A} (e : out_event) (k : unit -> M A) (w : world) :
  bind (print e) k w = k tt (emit [e] w).
Proof. reflexivity. Qed.

Lemma for_each_print {A} (g : A -> out_event) (xs : list A) (w : world) :
  for_each xs (fun x => print (g x)) w = (Ok tt, emit (map g xs) w).
Proof.
  revert w. induction xs as [|x xs IH]; intros w; simpl.
  - unfold ret. now rewrite emit_nil.
  - rewrite bind_print, IH, emit_emit. reflexivity.
Qed.

(** The driver prints the preamble, then sets up the pool and runs the
    sweep. *)
Lemma do_benchmarking_preamble (rt : runtime) (opts : options)
    (data : bytes) (w : world) :
  do_benchmarking rt opts data w
  = bind
      (_get_pool opts data
         (PrimFloat.div (PrimFloat.div (float_of_int (len data)) 1024%float)
            (float_of_int 1024)))
      (fun pd =>
         let (p, data') := pd in
         (print OutBlank ;;;
          print OutTableHead ;;;
          print OutTableRule ;;;
          for_each (sweep rt)
            (benchmark_one rt opts p data'
               (PrimFloat.div
                  (PrimFloat.div (float_of_int (len data)) 1024%float)
                  (float_of_int 1024))))%M)
      (emit (preamble rt opts data) w).
Proof.
  unfold do_benchmarking. rewrite !bind_print.
  unfold bind at 1. rewrite for_each_print, !emit_emit. reflexivity.
Qed.

Lemma serial_timeline_agree (crc : Z) (w : world) (n : nat) :
  length (serial_timeline crc w n) = n
  /\ Forall (fun r => fst (fst r) = crc) (serial_timeline crc w n).
Proof.
  unfold serial_timeline. split.
  - now rewrite length_map, length_seq.
  - apply Forall_forall. intros r Hr.
    apply in_map_iff in Hr as (k & <- & _). reflexivity.
Qed.

Lemma summarize_fields (rt : runtime) (variant : string) (bufsize : Z)
    (size_mb t0 : float) (res : list task_result) (args : row) :
  summarize rt variant bufsize size_mb t0 res = Ok args ->
  row_variant args = variant
  /\ row_bufsize args = bufsize
  /\ row_crc_hex args = Z.land (row_crc args) 0xffffffff
  /\ exists r res', res = r :: res' /\ row_crc args = fst (fst r).
Proof.
  unfold summarize.
  destruct (rmap _ _) as [speeds|]; simpl; [|discriminate].
  destruct (negb _); [discriminate|].
  destruct res as [|r res]; [discriminate|]. simpl py_first. simpl rbind.
  repeat match goal with
         | |- context [rbind (mean_and_stddev rt ?x) _] =>
             destruct (mean_and_stddev rt x); simpl; [|discriminate]
         end.
  intros [= <-]. simpl. repeat split. eauto.
Qed.

Lemma summarize_agreeing (rt : runtime) (variant : string) (bufsize : Z)
    (size_mb t0 : float) (res : list task_result) (crc : Z) :
  res <> [] ->
  Forall (fun r => fst (fst r) = crc) res ->
  (exists args,
     summarize rt variant bufsize size_mb t0 res = Ok args
     /\ row_variant args = variant
     /\ row_bufsize args = bufsize
     /\ row_crc args = crc
     /\ row_crc_hex args = Z.land crc 0xffffffff)
  \/ summarize rt variant bufsize size_mb t0 res = Raise ZeroDivisionError
  \/ summarize rt variant bufsize size_mb t0 res = Raise OverflowError.
Proof.
  intros Hne Hall.
  assert (Heq : all_equal (map (fun x => fst (fst x)) res) = true).
  { apply all_equal_iff. intros a b Ha Hb.
    apply in_map_iff in Ha as (ra & <- & Hra).
    apply in_map_iff in Hb as (rb & <- & Hrb).
    rewrite Forall_forall in Hall.
    now rewrite (Hall _ Hra), (Hall _ Hrb). }
  destruct (elapsed_cases res) as [Hz|Hnz].
  - right; left. apply summarize_zero_elapsed.
    apply Exists_exists in Hz as (t & Ht & Hz).
    apply in_map_iff in Ht as (x & <- & Hx).
    apply Exists_exists. eauto.
  - assert (Hnz' : Forall (fun x => PrimFloat.eqb (snd x) 0 = false) res).
    { rewrite Forall_forall in *. intros x Hx. apply Hnz.
      apply in_map_iff. eauto. }
    destruct (summarize_ok_or_overflow rt variant bufsize size_mb t0 res
                Hne Hnz' Heq) as [[args Hs]|Hs]; [|auto].
    left. exists args. split; [exact Hs|].
    destruct (summarize_fields _ _ _ _ _ _ _ Hs)
      as (Hv & Hb & Hx & r & res' & -> & Hc).
    inversion Hall; subst. repeat split; try assumption; congruence.
Qed.

Lemma sweep_bufsize (rt : runtime) (c : string * Z) :
  In c (sweep rt) -> In (bufsize_of (snd c)) chunk_sizes /\ 0 <= bufsize_of (snd c).
Proof.
  intros Hc.
  assert (H : In (fst c, bufsize_of (snd c))
                (map (fun c => (fst c, bufsize_of (snd c))) (sweep rt)))
    by (apply in_map_iff; eauto).
  rewrite sweep_chunk_sizes in H.
  apply in_flat_map in H as (variant & _ & H).
  apply in_map_iff in H as (b & [= _ <-] & Hb).
  split; [assumption|].
  unfold chunk_sizes in Hb. simpl in Hb.
  repeat (destruct Hb as [<-|Hb]; [lia|]). contradiction.
Qed.

Section Sweep.
Variable rt : runtime.
Variable opts : options.
Variable data data' : bytes.
Variable size_mb : float.
Hypothesis tasks : 1 <= number_tasks opts.
Hypothesis local : processes opts = false -> data' = data.

Lemma benchmark_one_outcome (c : string * Z) (w : world) :
  In c (sweep rt) ->
  (processes opts = true -> _shmem_val w = Some data) ->
  exists r w',
    benchmark_one rt opts _serial_pool data' size_mb c w = (r, w')
    /\ (processes opts = true -> _shmem_val w' = Some data)
    /\ ((r = Ok tt
         /\ exists args,
              stdout w' = stdout w ++ [OutRow args]
              /\ row_correct rt data args)
        \/ ((r = Raise ZeroDivisionError \/ r = Raise OverflowError)
            /\ stdout w' = stdout w)).
Proof.
  intros Hc Hw.
  destruct (sweep_registered rt c Hc) as [ci Hci].
  destruct (sweep_bufsize rt c Hc) as [Hin Hpos].
  destruct c as [variant l]. simpl in Hci, Hin, Hpos.
  destruct (py_range_count (number_tasks opts)) as (indices & Hr & _).
  pose proof (combination_timeline rt opts data data' (bufsize_of l) variant
                ci (advance 1 w) Hw local Hci Hpos) as Hrun.
  unfold run_combination in Hrun.
  cbv beta iota delta [bind lift] in Hrun. rewrite Hr in Hrun.
  rewrite (benchmark_one_after_map rt opts _serial_pool data' size_mb variant
             l w _ indices _ Hr Hrun).
  set (n := Z.to_nat (number_tasks opts)) in *.
  set (ref := reference_checksum ci data) in *.
  destruct (serial_timeline_agree ref (advance 1 w) n) as [Hlen Hall].
  assert (Hne : serial_timeline ref (advance 1 w) n <> []).
  { intros E. rewrite E in Hlen. simpl in Hlen. subst n. lia. }
  destruct (summarize_agreeing rt variant (bufsize_of l) size_mb
              (clock w (ticks w)) _ ref Hne Hall)
    as [(args & -> & Hv & Hb & Hcrc & Hhex)|[-> | ->]].
  - do 2 eexists. split; [reflexivity|]. split; [exact Hw|].
    left. split; [reflexivity|]. exists args. split; [reflexivity|].
    exists ci. rewrite Hv, Hb, Hhex, Hcrc. repeat split; try assumption.
    apply (registered_final_in32 rt variant ci _ Hci).
  - do 2 eexists. split; [reflexivity|]. split; [exact Hw|]. right. auto.
  - do 2 eexists. split; [reflexivity|]. split; [exact Hw|]. right. auto.
Qed.

Lemma sweep_outcome (cs : list (string * Z)) (w : world) :
  (forall c, In c cs -> In c (sweep rt)) ->
  (processes opts = true -> _shmem_val w = Some data) ->
  exists r w' new,
    for_each cs (benchmark_one rt opts _serial_pool data' size_mb) w = (r, w')
    /\ stdout w' = stdout w ++ new
    /\ Forall (event_correct rt data) new
    /\ (r = Ok tt \/ r = Raise ZeroDivisionError \/ r = Raise OverflowError).
Proof.
  revert w. induction cs as [|c cs IH]; intros w Hcs Hw.
  - exists (Ok tt), w, []. simpl. rewrite app_nil_r. auto.
  - destruct (benchmark_one_outcome c w (Hcs c (or_introl eq_refl)) Hw)
      as (r & w1 & Hone & Hw1 & [[-> (args & Hout & Hrow)]|[Hr Hout]]).
    + destruct (IH w1 (fun c' H => Hcs c' (or_intror H)) Hw1)
        as (r' & w' & new & Hrest & Hout' & Hnew & Hr').
      exists r', w', (OutRow args :: new).
      rewrite (for_each_continue _ _ _ _ _ Hone), Hrest.
      rewrite Hout', Hout, <- app_assoc. repeat split; auto.
    + exists r, w1, [].
      assert (Hraise : exists e, r = Raise e /\
                (e = ZeroDivisionError \/ e = OverflowError)).
      { destruct Hr as [-> | ->]; eauto. }
      destruct Hraise as (e & -> & He).
      rewrite (for_each_raise _ _ _ _ _ _ Hone), Hout, app_nil_r.
      destruct He as [-> | ->]; repeat split; auto.
Qed.
End Sweep.

Lemma rows_of_methods {A} (g : A -> string * string) (xs : list A) :
  rows_of (map (fun x => OutMethod (fst (g x)) (snd (g x))) xs) = [].
Proof. induction xs as [|x xs IH]; [reflexivity|exact IH]. Qed.

Lemma rows_of_preamble (rt : runtime) (opts : options) (data : bytes) :
  rows_of (preamble rt opts data) = [].
Proof.
  unfold preamble. rewrite rows_of_app. simpl.
  apply (rows_of_methods (fun item => (fst item, name (snd item)))).
Qed.

Lemma get_pool_ready (rt : runtime) (opts : options) (data : bytes)
    (size_mb : float) (w : world) :
  exclusive opts = true ->
  1 <= number_tasks opts ->
  exists data' w1 shm,
    _get_pool opts data size_mb w = (Ok (_serial_pool, data'), w1)
    /\ stdout w1 = stdout w ++ shm
    /\ Forall (event_correct rt data) shm
    /\ (processes opts = true -> _shmem_val w1 = Some data)
    /\ (processes opts = false -> data' = data).
Proof.
  intros Hex HN. unfold _get_pool, ThreadPool, Pool, exclusive in *.
  destruct (Z.ltb_spec (number_tasks opts) 1); [lia|].
  destruct (threads opts), (processes opts), (processes_copy opts);
    try discriminate;
    cbv beta iota delta [bind ret time_time print set_shmem_val].
  - exists data, w, []. rewrite app_nil_r. repeat split; auto; discriminate.
  - do 3 eexists. split; [reflexivity|]. simpl.
    repeat split; auto; try discriminate. repeat constructor.
  - exists data, w, []. rewrite app_nil_r. repeat split; auto; discriminate.
  - exists data, w, []. rewrite app_nil_r. repeat split; auto; discriminate.
Qed.

Lemma do_benchmarking_outcome (rt : runtime) (opts : options) (data : bytes)
    (w : world) :
  exclusive opts = true ->
  1 <= number_tasks opts ->
  exists r w' rest,
    do_benchmarking rt opts data w = (r, w')
    /\ stdout w' = stdout w ++ preamble rt opts data ++ rest
    /\ Forall (event_correct rt data) rest
    /\ (r = Ok tt \/ r = Raise ZeroDivisionError \/ r = Raise OverflowError).
Proof.
  intros Hex HN. rewrite do_benchmarking_preamble.
  set (size_mb := PrimFloat.div _ (float_of_int 1024)).
  destruct (get_pool_ready rt opts data size_mb (emit (preamble rt opts data) w)
              Hex HN)
    as (data' & w1 & shm & Hpool & Hout1 & Hshm & Hshared & Hlocal).
  unfold bind at 1. rewrite Hpool. rewrite !bind_print, !emit_emit.
  destruct (sweep_outcome rt opts data data' size_mb HN Hlocal (sweep rt)
              (emit [OutBlank; OutTableHead; OutTableRule] w1)
              (fun c H => H) Hshared)
    as (r & w' & new & Hrun & Hout & Hnew & Hr).
  exists r, w', (shm ++ [OutBlank; OutTableHead; OutTableRule] ++ new).
  split; [exact Hrun|]. split; [|split; [|exact Hr]].
  - rewrite Hout. simpl stdout. rewrite Hout1. simpl stdout.
    now rewrite <- !app_assoc.
  - apply Forall_app; split; [assumption|].
    repeat (apply Forall_cons; [exact I|]). assumption.
Qed.

(** X7: with one of the four strategies and at least one task, a run
    of the driver either completes or stops on a [ZeroDivisionError]
    (an elapsed time of zero) or an [OverflowError] (in the
    statistics); the exception of the consistency check is never
    raised. *)
Theorem run_ends_without_mismatch (rt : runtime) (opts : options)
    (data : bytes) (w : world) :
  exclusive opts = true ->
  1 <= number_tasks opts ->
  fst (do_benchmarking rt opts data w) = Ok tt
  \/ fst (do_benchmarking rt opts data w) = Raise ZeroDivisionError
  \/ fst (do_benchmarking rt opts data w) = Raise OverflowError.
Proof.
  intros Hex HN.
  destruct (do_benchmarking_outcome rt opts data w Hex HN)
    as (r & w' & rest & -> & _ & _ & Hr).
  exact Hr.
Qed.

Lemma run_ends_without_mismatch_sample :
  fst (do_benchmarking no_xx two_tasks check_bytes w0) = Ok tt
  \/ fst (do_benchmarking no_xx two_tasks check_bytes w0)
     = Raise ZeroDivisionError
  \/ fst (do_benchmarking no_xx two_tasks check_bytes w0)
     = Raise OverflowError.
Proof.
  apply run_ends_without_mismatch; [reflexivity|simpl; lia].
Defined.

(** X8: with one of the four strategies and at least one task, the
    driver prints the preamble (the data size, the task count, the
    mechanism and one line per registered algorithm) before anything
    else, and every row it prints afterwards, also in a run that stops
    early, names a registered algorithm and a chunk size of the sweep
    and shows, in both checksum columns, the checksum of the whole
    buffer under that algorithm. *)
Theorem printed_rows_are_correct (rt : runtime) (opts : options)
    (data : bytes) (w : world) :
  exclusive opts = true ->
  1 <= number_tasks opts ->
  exists rest,
    stdout (snd (do_benchmarking rt opts data w))
    = stdout w ++ preamble rt opts data ++ rest
    /\ Forall (event_correct rt data) rest.
Proof.
  intros Hex HN.
  destruct (do_benchmarking_outcome rt opts data w Hex HN)
    as (r & w' & rest & -> & Hout & Hrest & _).
  exists rest. auto.
Qed.

(** Three worker processes on the shared buffer under a clock that
    advances: the run completes and prints its fifty-two rows. *)
Lemma printed_rows_are_correct_processes :
  (exists rest,
     stdout (snd (do_benchmarking no_xx three_processes check_bytes w0))
     = stdout w0 ++ preamble no_xx three_processes check_bytes ++ rest
     /\ Forall (event_correct no_xx check_bytes) rest)
  /\ fst (do_benchmarking no_xx three_processes check_bytes w0) = Ok tt
  /\ length (rows_of
               (stdout (snd (do_benchmarking no_xx three_processes
                               check_bytes w0)))) = 52%nat.
Proof.
  split; [apply printed_rows_are_correct; [reflexivity|simpl; lia]|].
  split; vm_compute; reflexivity.
Defined.

Lemma sweep_first (rt : runtime) :
  exists rest, sweep rt = ("crc32", 9) :: rest.
Proof. unfold sweep, checksums. simpl. eauto. Qed.

(** X9: with fewer than one task no row is printed: the pools of the
    thread and process strategies refuse the worker count with a
    [ValueError], and the serial strategy fails on the first
    combination with an [IndexError], before any statistics are
    computed. *)
Theorem no_tasks_no_rows (rt : runtime) (opts : options) (data : bytes)
    (w : world) :
  number_tasks opts < 1 ->
  fst (do_benchmarking rt opts data w)
  = Raise (if threads opts || processes opts || processes_copy opts
           then ValueError "Number of processes must be at least 1"
           else IndexError)
  /\ rows_of (stdout (snd (do_benchmarking rt opts data w)))
     = rows_of (stdout w).
Proof.
  intros HN.
  assert (H : exists w',
             do_benchmarking rt opts data w
             = (Raise (if threads opts || processes opts || processes_copy opts
                       then ValueError "Number of processes must be at least 1"
                       else IndexError), w')
             /\ rows_of (stdout w') = rows_of (stdout w));
    [|destruct H as (w' & -> & Hrows); split; [reflexivity|exact Hrows]].
  rewrite do_benchmarking_preamble.
  set (size_mb := PrimFloat.div _ (float_of_int 1024)).
  assert (Hpre : rows_of (stdout (emit (preamble rt opts data) w))
                 = rows_of (stdout w)).
  { simpl. now rewrite rows_of_app, rows_of_preamble, app_nil_r. }
  revert Hpre. generalize (emit (preamble rt opts data) w). intros w1 Hpre.
  unfold bind at 1. unfold _get_pool, ThreadPool, Pool.
  destruct (Z.ltb_spec (number_tasks opts) 1); [|lia].
  destruct (threads opts); [eexists; split; [reflexivity|exact Hpre]|].
  destruct (processes opts).
  { cbv beta iota delta [bind raise time_time print]. simpl.
    eexists; split; [reflexivity|]. simpl.
    now rewrite rows_of_app, app_nil_r. }
  destruct (processes_copy opts); [eexists; split; [reflexivity|exact Hpre]|].
  cbv beta iota delta [ret orb]. rewrite !bind_print, !emit_emit.
  destruct (sweep_first rt) as [rest ->].
  destruct (py_range_count (number_tasks opts)) as (indices & Hr & Hl).
  assert (indices = []).
  { destruct indices; [reflexivity|]. unfold len in Hl. simpl in Hl. lia. }
  subst indices.
  eexists. split.
  - apply for_each_raise.
    rewrite (benchmark_one_after_map rt opts _serial_pool data size_mb
               "crc32" 9 _ _ [] [] Hr eq_refl).
    reflexivity.
  - simpl. now rewrite rows_of_app, app_nil_r.
Qed.

Lemma no_tasks_no_rows_sample :
  fst (do_benchmarking no_xx
         {| number_tasks := 0; file := None; megabytes := 0; threads := false;
            processes := false; processes_copy := false |} check_bytes w0)
  = Raise IndexError
  /\ rows_of (stdout (snd (do_benchmarking no_xx
         {| number_tasks := 0; file := None; megabytes := 0; threads := false;
            processes := false; processes_copy := false |} check_bytes w0)))
     = rows_of (stdout w0).
Proof.
  apply (no_tasks_no_rows no_xx
           {| number_tasks := 0; file := None; megabytes := 0;
              threads := false; processes := false;
              processes_copy := false |}).
  simpl. lia.
Defined.

(* ================================================================= *)
(** ** The command line *)











